(** * quickpaint.py: batch inference orchestration of MeuralPaint

    A shallow embedding of [get_opts], [read_img], [transfer], [eval] and
    [eval_mul_dims] of [quickpaint.py].

    - Arrays are rank-3 numpy arrays (height, width, channel): a shape and
      an indexing function.  Every element is a rational: 8-bit pixels are
      the integers 0..255, the float32/float64 arithmetic of numpy is
      idealised as exact arithmetic on [Q].
    - The interpreter state is the file system (decoded images by path, the
      set of directories) together with the trace of the external calls
      made so far (image reads and writes, sessions, checkpoint restores,
      forward runs).
    - Python exceptions are an error outcome of a state-and-error monad.
    - The network ([transform.net] with the restored checkpoint), the
      memory oracle of the TensorFlow runtime, the checkpoint store and
      the image encoder of [imsave] are collaborators outside
      [quickpaint.py]: they are the variables of [Section Quickpaint]. *)

From Stdlib Require Import QArith Qround Ascii.
From stdpp Require Import gmap strings list fin_maps pretty.

Local Open Scope string_scope.
Local Open Scope nat_scope.

(** ** Rank-3 arrays *)

Definition shape3 : Type := nat * nat * nat.

Record ndarray : Type := NdArray {
  shape : shape3;
  item : nat → nat → nat → Q
}.

Definition shape_eqb (s t : shape3) : bool := bool_decide (s = t).

(** All the indices of a shape, in row-major order. *)
Definition indices (s : shape3) : list (nat * nat * nat) :=
  let '(h, w, c) := s in
  a ← seq 0 h; b ← seq 0 w; k ← seq 0 c; [(a, b, k)].

Definition in_bounds (s : shape3) (a b k : nat) : Prop :=
  let '(h, w, c) := s in a < h ∧ b < w ∧ k < c.

Definition elements (x : ndarray) : list Q :=
  (λ '(a, b, k), item x a b k) <$> indices (shape x).

(** [np.zeros(shape, dtype=np.float32)] *)
Definition np_zeros (s : shape3) : ndarray := NdArray s (λ _ _ _, 0%Q).

Definition Qgtb (x y : Q) : bool := negb (Qle_bool x y).

Definition Qmaxb (x y : Q) : Q := if Qle_bool x y then y else x.

(** Python exceptions raised by the code and by its collaborators. *)
Inductive exn : Type :=
| IndexError
| IOError
| ValueError
| ZeroDivisionError
| UnboundLocalError
| AssertionError
| NotFoundError
| ResourceExhaustedError.

Global Instance exn_eq_dec : EqDecision exn.
Proof. solve_decision. Defined.

(** The result of a pure computation: a value or a raised exception. *)
Inductive result (A : Type) : Type :=
| Ok (a : A)
| Err (e : exn).
Arguments Ok {A} a.
Arguments Err {A} e.

Definition rbind {A B} (r : result A) (k : A → result B) : result B :=
  match r with
  | Ok a => k a
  | Err e => Err e
  end.

Notation "'let?' x ':=' r 'in' k" := (rbind r (λ x, k))
  (at level 10, x name, r at level 100, k at level 200).

Definition is_ok {A} (r : result A) : bool :=
  match r with Ok _ => true | Err _ => false end.

(** [l[i]] on a Python list or on the first axis of an array *)
Definition getitem {A} (l : list A) (i : nat) : result A :=
  match l !! i with
  | Some a => Ok a
  | None => Err IndexError
  end.

(** [x.max()]: numpy refuses the maximum of an empty array. *)
Definition np_max (x : ndarray) : result Q :=
  match elements x with
  | [] => Err ValueError
  | v :: vs => Ok (foldl Qmaxb v vs)
  end.

(** [np.where(x > thr, 1, 0)] *)
Definition np_where_gt (x : ndarray) (thr : Q) : ndarray :=
  NdArray (shape x) (λ a b k, if Qgtb (item x a b k) thr then 1%Q else 0%Q).

(** [np.clip(p, 0, 255).astype(np.uint8)]: the cast truncates, which on
    the clipped range is the floor. *)
Definition clip (lo hi v : Q) : Q :=
  if Qle_bool v lo then lo else if Qle_bool hi v then hi else v.

Definition np_clip_uint8 (p : ndarray) : ndarray :=
  NdArray (shape p) (λ a b k, inject_Z (Qfloor (clip 0 255 (item p a b k)))).

(** [x * c] for a Python float [c] *)
Definition np_scale (x : ndarray) (c : Q) : ndarray :=
  NdArray (shape x) (λ a b k, (item x a b k * c)%Q).

(** [img[0:h, 0:w, :]]: slices are clamped to the array's own extent. *)
Definition crop (img : ndarray) (h w : nat) : ndarray :=
  let '(ih, iw, ic) := shape img in
  NdArray (h `min` ih, w `min` iw, ic) (item img).

(** Broadcasting of one axis: equal extents, or one of them is 1. *)
Definition bcast_dim (d e : nat) : option nat :=
  if d =? e then Some d
  else if d =? 1 then Some e
  else if e =? 1 then Some d
  else None.

Definition bcast_shape (s t : shape3) : option shape3 :=
  let '(h1, w1, c1) := s in
  let '(h2, w2, c2) := t in
  h ← bcast_dim h1 h2; w ← bcast_dim w1 w2; c ← bcast_dim c1 c2;
  Some (h, w, c).

(** The index read on an axis of extent [d] when it is broadcast. *)
Definition bidx (d i : nat) : nat := if d =? 1 then 0 else i.

Definition bitem (x : ndarray) (a b k : nat) : Q :=
  let '(h, w, c) := shape x in item x (bidx h a) (bidx w b) (bidx c k).

(** [np.multiply(x, y)] *)
Definition np_multiply (x y : ndarray) : result ndarray :=
  match bcast_shape (shape x) (shape y) with
  | Some s => Ok (NdArray s (λ a b k, (bitem x a b k * bitem y a b k)%Q))
  | None => Err ValueError
  end.

(** [np.dstack((img, img, img))] of a rank-3 array: three copies along the
    channel axis. *)
Definition np_dstack3 (img : ndarray) : ndarray :=
  let '(h, w, c) := shape img in
  NdArray (h, w, 3 * c) (λ a b k, item img a b (k `mod` c)).

(** [x[j] = img]: the assigned value is broadcast to the slot's shape, an
    axis of [img] can only be stretched from extent 1. *)
Definition stretch_dim (d e : nat) : bool := (e =? d) || (e =? 1).

Definition broadcast_to (s : shape3) (img : ndarray) : result ndarray :=
  let '(h, w, c) := s in
  let '(ih, iw, ic) := shape img in
  if stretch_dim h ih && stretch_dim w iw && stretch_dim c ic
  then Ok (NdArray s (bitem img))
  else Err ValueError.

Definition setitem (x : list ndarray) (j : nat) (img : ndarray)
  : result (list ndarray) :=
  let? slot := getitem x j in
  let? v := broadcast_to (shape slot) img in
  Ok (<[j := v]> x).

(** ** The interpreter state *)

Inductive event : Type :=
| EvMakedirs (p : string)
| EvRead (p : string)
| EvSession (dev : string)
| EvRestore (dev model : string)
| EvRun (dev : string) (x : list ndarray)
| EvSave (p : string) (img : ndarray).

Record world : Type := World {
  files : gmap string ndarray;
  dirs : gset string;
  trace : list event
}.

Definition log (e : event) (w : world) : world :=
  World (files w) (dirs w) (trace w ++ [e]).

(** The outcome of a computation on the state: a value, a raised
    exception, or the exhaustion of the recursion budget of [eval_fuel]. *)
Inductive outcome (A : Type) : Type :=
| Ret (a : A)
| Raise (e : exn)
| OutOfFuel.
Arguments Ret {A} a.
Arguments Raise {A} e.
Arguments OutOfFuel {A}.

Definition is_ret {A} (o : outcome A) : bool :=
  match o with Ret _ => true | _ => false end.

Definition is_raise {A} (o : outcome A) : bool :=
  match o with Raise _ => true | _ => false end.

(** Computations: a state monad over [world] with outcomes. *)
Definition M (A : Type) : Type := world → outcome A * world.

Definition ret {A} (a : A) : M A := λ w, (Ret a, w).
Definition raise {A} (e : exn) : M A := λ w, (Raise e, w).
Definition out_of_fuel {A} : M A := λ w, (OutOfFuel, w).
Definition lift {A} (r : result A) : M A := λ w,
  match r with
  | Ok a => (Ret a, w)
  | Err e => (Raise e, w)
  end.

Definition bind {A B} (m : M A) (k : A → M B) : M B := λ w,
  match m w with
  | (Ret a, w') => k a w'
  | (Raise e, w') => (Raise e, w')
  | (OutOfFuel, w') => (OutOfFuel, w')
  end.

Notation "'let*' x ':=' m 'in' k" := (bind m (λ x, k))
  (at level 10, x name, m at level 100, k at level 200).

(** [try: m except E: h] for the single exception class [E] *)
Definition try_except {A} (m : M A) (E : exn) (h : M A) : M A := λ w,
  match m w with
  | (Raise e, w') => if decide (e = E) then h w' else (Raise e, w')
  | r => r
  end.

(** [assert b] *)
Definition py_assert (b : bool) : M unit :=
  if b then ret tt else raise AssertionError.

(** [os.path.exists] *)
Definition path_exists (p : string) (w : world) : bool :=
  bool_decide (is_Some (files w !! p)) || bool_decide (p ∈ dirs w).

Definition os_path_exists (p : string) : M bool := λ w, (Ret (path_exists p w), w).

(** [os.makedirs] *)
Definition os_makedirs (p : string) : M unit := λ w,
  (Ret tt, World (files w) ({[p]} ∪ dirs w) (trace w ++ [EvMakedirs p])).

(** [imread(src, mode='RGB')] *)
Definition imread (src : string) : M ndarray := λ w,
  match files w !! src with
  | Some img => (Ret img, log (EvRead src) w)
  | None => (Raise IOError, w)
  end.

(** [read_img] *)
Definition read_img (src : string) : M ndarray :=
  let* img := imread src in
  if negb ((shape img).2 =? 3) then ret (np_dstack3 img) else ret img.

(** [imsave(path, img)]: the file then decodes to [encode img]. *)
Definition imsave (encode : ndarray → ndarray) (path : string) (img : ndarray)
  : M unit := λ w,
  (Ret tt, World (<[path := encode img]> (files w)) (dirs w)
                 (trace w ++ [EvSave path img])).

(** ** Option parsing *)

Record opts : Type := Opts {
  opt_model_path : string;
  opt_in_path : string;
  opt_out_path : string;
  opt_device : string;
  opt_batch_size : Z;
  opt_mask : Z;
  opt_blend : Q
}.

(** ["." in s] *)
Fixpoint has_dot (s : string) : bool :=
  match s with
  | EmptyString => false
  | String c s' => Ascii.eqb c "."%char || has_dot s'
  end.

(** [get_opts], from the record that [parser.parse_args()] returns.  The
    two [isinstance] assertions hold by the types argparse converts to. *)
Definition get_opts (o : opts) : M opts :=
  let* found := os_path_exists (opt_in_path o) in
  let* _ := py_assert found in
  let* _ :=
    if negb (has_dot (opt_out_path o)) then
      let* there := os_path_exists (opt_out_path o) in
      if negb there then os_makedirs (opt_out_path o) else ret tt
    else ret tt in
  let* _ := py_assert (0 <? opt_batch_size o)%Z in
  let* _ := py_assert ((opt_mask o =? 1)%Z || (opt_mask o =? 0)%Z) in
  let* _ := py_assert (Qle_bool (opt_blend o) 1) in
  ret o.

(** ** The batch runner and the device fallback *)

Record session : Type := Session { sess_device : string }.

Section Quickpaint.

(** [net model dev x]: the predictions of the network restored from
    checkpoint [model], run on device [dev], for the batch buffer [x]. *)
Variable net : string → string → list ndarray → list ndarray.
(** [exhausted dev n s]: a forward run of a batch of [n] images of shape
    [s] exhausts the memory of device [dev]. *)
Variable exhausted : string → nat → shape3 → bool.
Variable has_checkpoint : string → bool.
(** What an image file written by [imsave] decodes to. *)
Variable encode : ndarray → ndarray.

(** [with g.as_default(), g.device(dev), tf.Session(config=...) as sess] *)
Definition tf_session (dev : string) : M session := λ w,
  (Ret (Session dev), log (EvSession dev) w).

(** [tf.placeholder(tf.float32, shape=(batch_size,) + img_shape)]: a
    negative extent is refused. *)
Definition tf_placeholder (batch_size : Z) : M unit :=
  if (batch_size <? 0)%Z then raise ValueError else ret tt.

(** [saver.restore(sess, model_path)] *)
Definition saver_restore (sess : session) (model_path : string) : M unit :=
  λ w,
  if has_checkpoint model_path
  then (Ret tt, log (EvRestore (sess_device sess) model_path) w)
  else (Raise NotFoundError, w).

(** [sess.run(preds, feed_dict={img_placeholder: x})] *)
Definition sess_run (sess : session) (model_path : string)
    (img_shape : shape3) (x : list ndarray) : M (list ndarray) := λ w,
  if exhausted (sess_device sess) (length x) img_shape
  then (Raise ResourceExhaustedError, w)
  else (Ret (net model_path (sess_device sess) x),
        log (EvRun (sess_device sess) x) w).

(** [int(len(paths_out) / batch_size)] *)
Definition num_iters_of (n : nat) (batch_size : Z) : result nat :=
  if (batch_size =? 0)%Z then Err ZeroDivisionError
  else Ok (Z.to_nat (Z.of_nat n `quot` batch_size)).

(** The body of the loop [for j, path_out in enumerate(curr_batch_out)]
    before [imsave]: the image written for slot [j] of batch [i]. *)
Definition postprocess (x : list ndarray) (_preds : option (list ndarray))
    (i j : nat) (mask : Z) (blend : Q) : result ndarray :=
  let? ps := match _preds with
             | Some ps => Ok ps
             | None => Err UnboundLocalError
             end in
  let? p := getitem ps j in
  let img := np_clip_uint8 p in
  let? img :=
    if (mask =? 1)%Z then
      let? xi := getitem x i in
      let? m := np_max xi in
      let thr := (m * 0.01)%Q in
      let? xj := getitem x j in
      let inmask := np_where_gt xj thr in
      let img :=
        if negb (shape_eqb (shape inmask) (shape img))
        then crop img (shape inmask).1.1 (shape inmask).1.2
        else img in
      np_multiply inmask img
    else Ok img in
  if Qgtb blend 0 then
    let? xi := getitem x i in
    let inimg := np_scale xi blend in
    let img :=
      if negb (shape_eqb (shape inimg) (shape img))
      then crop img (shape inimg).1.1 (shape inimg).1.2
      else img in
    np_multiply inimg img
  else Ok img.

(** [for j, path_in in enumerate(curr_batch_in)], from index [j] on: the
    buffer and the last predictions are the loop's variables. *)
Fixpoint fill_batch (sess : session) (model_path : string)
    (img_shape : shape3) (j : nat) (curr_batch_in : list string)
    (x : list ndarray) (_preds : option (list ndarray))
  : M (list ndarray * option (list ndarray)) :=
  match curr_batch_in with
  | [] => ret (x, _preds)
  | path_in :: rest =>
    let* img := read_img path_in in
    let* x := lift (setitem x j img) in
    let* ps := sess_run sess model_path img_shape x in
    fill_batch sess model_path img_shape (S j) rest x (Some ps)
  end.

(** [for j, path_out in enumerate(curr_batch_out)], from index [j] on *)
Fixpoint save_batch (x : list ndarray) (_preds : option (list ndarray))
    (i : nat) (mask : Z) (blend : Q) (j : nat)
    (curr_batch_out : list string) : M unit :=
  match curr_batch_out with
  | [] => ret tt
  | path_out :: rest =>
    let* img := lift (postprocess x _preds i j mask blend) in
    let* _ := imsave encode path_out img in
    save_batch x _preds i mask blend (S j) rest
  end.

(** One iteration of [for i in range(num_iters)]. *)
Definition batch_step (sess : session) (data_in paths_out : list string)
    (model_path : string) (img_shape : shape3) (batch_size : nat)
    (mask : Z) (blend : Q) (i : nat) (_preds : option (list ndarray))
  : M (option (list ndarray)) :=
  let pos := i * batch_size in
  let curr_batch_out := take batch_size (drop pos paths_out) in
  let curr_batch_in := take batch_size (drop pos data_in) in
  let x := replicate batch_size (np_zeros img_shape) in
  let* filled :=
    fill_batch sess model_path img_shape 0 curr_batch_in x _preds in
  let* _ := save_batch filled.1 filled.2 i mask blend 0 curr_batch_out in
  ret filled.2.

(** [for i in range(num_iters)] over the remaining values of [i];
    [_preds] survives from one iteration to the next. *)
Fixpoint batches (sess : session) (data_in paths_out : list string)
    (model_path : string) (img_shape : shape3) (batch_size : nat)
    (mask : Z) (blend : Q) (iters : list nat)
    (_preds : option (list ndarray)) : M unit :=
  match iters with
  | [] => ret tt
  | i :: rest =>
    let* _preds := batch_step sess data_in paths_out model_path img_shape
                     batch_size mask blend i _preds in
    batches sess data_in paths_out model_path img_shape batch_size
      mask blend rest _preds
  end.

(** The type of [eval]. *)
Definition eval_t : Type :=
  list string → list string → string → string → Z → Z → Q → M unit.

(** [transfer]; [eval_rec] is the [eval] it calls on the leftover. *)
Definition transfer (eval_rec : eval_t) (sess : session)
    (data_in paths_out : list string) (model_path device : string)
    (batch_size mask : Z) (blend : Q) : M unit :=
  let* first := lift (getitem data_in 0) in
  let* img := read_img first in
  let img_shape := shape img in
  let* _ := tf_placeholder batch_size in
  let* _ := saver_restore sess model_path in
  let* num_iters := lift (num_iters_of (length paths_out) batch_size) in
  let* _ := batches sess data_in paths_out model_path img_shape
              (Z.to_nat batch_size) mask blend (seq 0 num_iters) None in
  let remaining_in := drop (num_iters * Z.to_nat batch_size) data_in in
  let remaining_out := drop (num_iters * Z.to_nat batch_size) paths_out in
  if 0 <? length remaining_in
  then eval_rec remaining_in remaining_out model_path device batch_size
         mask blend
  else ret tt.

(** [eval]; the recursion through [transfer] is bounded by [fuel]. *)
Fixpoint eval_fuel (fuel : nat) (data_in paths_out : list string)
    (model_path device : string) (batch_size mask : Z) (blend : Q)
  : M unit :=
  match fuel with
  | 0 => out_of_fuel
  | S fuel' =>
    let batch_size := Z.min (Z.of_nat (length paths_out)) batch_size in
    try_except
      (let* sess := tf_session device in
       transfer (eval_fuel fuel') sess data_in paths_out model_path device
         batch_size mask blend)
      ResourceExhaustedError
      (let* sessc := tf_session "/cpu:0" in
       transfer (eval_fuel fuel') sessc data_in paths_out model_path device
         batch_size mask blend)
  end.

(** [eval]: one level of recursion for each strictly shorter leftover. *)
Definition eval (data_in paths_out : list string)
    (model_path device : string) (batch_size mask : Z) (blend : Q)
  : M unit :=
  eval_fuel (S (length paths_out)) data_in paths_out model_path device
    batch_size mask blend.

(** ** Grouping by shape *)

(** ["%dx%dx%d" % shape] *)
Definition shape_key (s : shape3) : string :=
  let '(h, w, c) := s in
  pretty h +:+ "x" +:+ pretty w +:+ "x" +:+ pretty c.

(** The two [defaultdict(list)] of [eval_mul_dims]. *)
Definition groups : Type :=
  gmap string (list string) * gmap string (list string).

(** [d[k].append(v)] on a [defaultdict(list)] *)
Definition dict_append (k v : string) (d : gmap string (list string))
  : gmap string (list string) :=
  <[k := (d !!! k ++ [v])%list]> d.

(** The first loop of [eval_mul_dims], over the remaining indices. *)
Fixpoint group_loop (in_path out_path : list string) (iters : list nat)
    (g : groups) : M groups :=
  match iters with
  | [] => ret g
  | i :: rest =>
    let* in_image := lift (getitem in_path i) in
    let* out_image := lift (getitem out_path i) in
    let* img := imread in_image in
    let shape := shape_key (shape img) in
    group_loop in_path out_path rest
      (dict_append shape in_image g.1, dict_append shape out_image g.2)
  end.

(** The second loop: [eval] on every group, in the dictionary's order. *)
Fixpoint eval_groups (keys : list string) (g : groups)
    (model_path device : string) (batch_size mask : Z) (blend : Q)
  : M unit :=
  match keys with
  | [] => ret tt
  | shape :: rest =>
    let* _ := eval (g.1 !!! shape) (g.2 !!! shape) model_path device
                batch_size mask blend in
    eval_groups rest g model_path device batch_size mask blend
  end.

Definition eval_mul_dims (in_path out_path : list string)
    (model_path device : string) (batch_size mask : Z) (blend : Q)
  : M unit :=
  let* g := group_loop in_path out_path (seq 0 (length in_path)) (∅, ∅) in
  eval_groups (map_to_list g.1).*1 g model_path device batch_size
    mask blend.

End Quickpaint.

(** An [eval] that ignores its call: [transfer no_eval] is the part of a
    [transfer] call before the leftover is handed over. *)
Definition no_eval : eval_t := λ _ _ _ _ _ _ _, ret tt.

(** The key of the group an input path falls into, for the images on
    disk. *)
Definition key_of (fs : gmap string ndarray) (p : string) : string :=
  match fs !! p with
  | Some img => shape_key (shape img)
  | None => ""
  end.

(** Decimal numerals hold no ["x"]. *)
Definition is_digit (c : ascii) : Prop := c ≠ "x"%char.

Fixpoint digits (s : string) : Prop :=
  match s with
  | EmptyString => True
  | String c s' => is_digit c ∧ digits s'
  end.

(** The paths written by a sequence of events, in order. *)
Definition saved (es : list event) : list string :=
  omap (λ e, match e with EvSave p _ => Some p | _ => None end) es.

(** Every forward run of a sequence of events fed a buffer of [n] slots. *)
Definition runs_of_size (n : nat) (es : list event) : Prop :=
  Forall (λ e, match e with EvRun _ x => length x = n | _ => True end) es.


(** The paths read by a sequence of events, in order. *)
Definition loaded (es : list event) : list string :=
  omap (λ e, match e with EvRead p => Some p | _ => None end) es.

(** What [read_img] returns for a path, from the files. *)
Definition decoded (fs : gmap string ndarray) (p : string) : option ndarray :=
  (λ img, if negb ((shape img).2 =? 3) then np_dstack3 img else img)
    <$> fs !! p.

(** The path decodes to an image of shape [sh]. *)
Definition readable (sh : shape3) (fs : gmap string ndarray) (p : string)
  : Prop :=
  ∃ img, decoded fs p = Some img ∧ shape img = sh.


(** Two arrays of one shape with the same elements. *)
Definition same_pixels (x y : ndarray) : Prop :=
  shape x = shape y
  ∧ ∀ a c k, in_bounds (shape y) a c k → item x a c k = item y a c k.


(** Two states hold the same image at every path of [D]. *)
Definition agree (D : string → Prop) (w1 w2 : world) : Prop :=
  ∀ p, D p → files w1 !! p = files w2 !! p.

(** From two states that agree on a set of paths including [R], a
    computation has the same outcome, appends the same events and leaves
    states that agree on that set and on the paths it wrote. *)
Definition deterministic_on (R : list string) {A} (m : M A) : Prop :=
  ∀ (D : string → Prop) w1 w2,
    (∀ p, p ∈ R → D p) → agree D w1 w2 →
    (m w1).1 = (m w2).1 ∧
    ∃ es, trace (m w1).2 = (trace w1 ++ es)%list ∧
          trace (m w2).2 = (trace w2 ++ es)%list ∧
          agree (λ p, D p ∨ p ∈ saved es) (m w1).2 (m w2).2.

(** The devices of the sessions opened by a sequence of events, in
    order, and the number of its forward runs. *)
Definition opened (es : list event) : list string :=
  omap (λ e, match e with EvSession dev => Some dev | _ => None end) es.

Definition forward_runs (es : list event) : nat :=
  length (omap (λ e, match e with EvRun _ x => Some x | _ => None end) es).


(** A computation reads image files at the paths of [R] only and writes
    image files at the paths of [P] only: the files at every path it did
    not write and the directories are as before. *)
Definition footprint (R P : list string) {A} (m : M A) : Prop :=
  ∀ w, ∃ es,
    trace (m w).2 = (trace w ++ es)%list
    ∧ loaded es ⊆ R ∧ saved es ⊆ P
    ∧ dirs (m w).2 = dirs w
    ∧ ∀ p, p ∉ saved es → files (m w).2 !! p = files w !! p.

(** ** Concrete inputs *)

Module Fixture.

(** A single pixel with its three channel values. *)
Definition rgb (r g b : Q) : ndarray :=
  NdArray (1, 1, 3) (λ _ _ k, match k with 0 => r | 1 => g | _ => b end).

(** A network that returns its batch, a runtime that never exhausts its
    memory, a checkpoint for every model, images stored as they are. *)
Definition identity_net : string → string → list ndarray → list ndarray :=
  λ _ _ x, x.
Definition never_exhausted : string → nat → shape3 → bool := λ _ _ _, false.
Definition any_checkpoint : string → bool := λ _, true.
Definition stored_as_is : ndarray → ndarray := λ img, img.

Definition disk : world :=
  World (list_to_map [("a", rgb 0 0 0); ("b", rgb 1 200 0);
                      ("c", rgb 2 2 2); ("d", rgb 4 0 8);
                      ("e", rgb 9 9 9)]) ∅ [].

Definition run : eval_t :=
  eval identity_net never_exhausted any_checkpoint stored_as_is.

(** A runtime whose accelerator is always out of memory. *)
Definition gpu_exhausted : string → nat → shape3 → bool :=
  λ dev _ _, bool_decide (dev = "/gpu:0").

(** The devices of the sessions a trace opened, in order. *)
Definition sessions (es : list event) : list string :=
  omap (λ e, match e with EvSession dev => Some dev | _ => None end) es.

(** The value at the first channel of the last image a trace wrote at a
    path. *)
Definition last_saved (p : string) (es : list event) : option Q :=
  last (omap (λ e, match e with
                   | EvSave q img =>
                     if decide (q = p) then Some (item img 0 0 0) else None
                   | _ => None
                   end) es).

End Fixture.

(** * Verification *)

Section Proofs.

Variable net : string → string → list ndarray → list ndarray.
Variable exhausted : string → nat → shape3 → bool.
Variable has_checkpoint : string → bool.
Variable encode : ndarray → ndarray.

Local Abbreviation transfer := (transfer net exhausted has_checkpoint encode).
Local Abbreviation eval_fuel := (eval_fuel net exhausted has_checkpoint encode).
Local Abbreviation eval := (eval net exhausted has_checkpoint encode).
Local Abbreviation batches := (batches net exhausted encode).
Local Abbreviation batch_step := (batch_step net exhausted encode).
Local Abbreviation fill_batch := (fill_batch net exhausted).
Local Abbreviation save_batch := (save_batch encode).
Local Abbreviation eval_mul_dims :=
  (eval_mul_dims net exhausted has_checkpoint encode).
Local Abbreviation eval_groups :=
  (eval_groups net exhausted has_checkpoint encode).
Local Abbreviation sess_run := (sess_run net exhausted).
Local Abbreviation saver_restore := (saver_restore has_checkpoint).

Lemma saved_app es1 es2 : saved (es1 ++ es2) = (saved es1 ++ saved es2)%list.
Proof. apply omap_app. Qed.

Lemma runs_of_size_app n es1 es2 :
  runs_of_size n es1 → runs_of_size n es2 → runs_of_size n (es1 ++ es2).
Proof. apply Forall_app_2. Qed.

Lemma Qgtb_lt x y : Qgtb x y = true ↔ (y < x)%Q.
Proof.
  unfold Qgtb. rewrite negb_true_iff, <- not_true_iff_false, Qle_bool_iff.
  split; [apply Qnot_le_lt|apply Qlt_not_le].
Qed.

(** Closes the routine goals on the events of a sequence of calls. *)
Ltac spec_goal :=
  first
    [ progress repeat match goal with
             | H : trace _ = (_ ++ _)%list |- _ => rewrite H; clear H
             end;
      by rewrite ?app_assoc
    | unfold runs_of_size in *; repeat apply Forall_app_2; by auto
    | intros;
      rewrite ?saved_app;
      repeat match goal with
             | H : saved _ = [] |- _ => rewrite H; clear H
             end;
      done ].

(** ** The leftover call is the only use [transfer] makes of [eval] *)

Lemma transfer_ext (e1 e2 : eval_t) sess data_in paths_out model_path device
    batch_size mask blend w :
  (∀ n w', (0 < batch_size)%Z →
     num_iters_of (length paths_out) batch_size = Ok n →
     drop (n * Z.to_nat batch_size) data_in ≠ [] →
     e1 (drop (n * Z.to_nat batch_size) data_in)
        (drop (n * Z.to_nat batch_size) paths_out)
        model_path device batch_size mask blend w'
     = e2 (drop (n * Z.to_nat batch_size) data_in)
          (drop (n * Z.to_nat batch_size) paths_out)
          model_path device batch_size mask blend w') →
  transfer e1 sess data_in paths_out model_path device batch_size mask
    blend w
  = transfer e2 sess data_in paths_out model_path device batch_size mask
      blend w.
Proof.
  intros Hrec. unfold transfer, bind.
  destruct (lift (getitem data_in 0) w) as [[first|e|] w1]; try done.
  destruct (read_img first w1) as [[img|e|] w2]; try done.
  unfold tf_placeholder.
  destruct (batch_size <? 0)%Z eqn:Hneg; [done|]. simpl.
  destruct (saver_restore sess model_path w2) as [[u|e|] w3]; try done.
  destruct (num_iters_of (length paths_out) batch_size) as [n|e] eqn:Hn;
    simpl; [|done].
  destruct (batches _ _ _ _ _ _ _ _ _ _ w3) as [[u'|e|] w4]; try done.
  case_match eqn:Hrem; [|done].
  apply Hrec; [|done|].
  - unfold num_iters_of in Hn. apply Z.ltb_ge in Hneg.
    destruct (batch_size =? 0)%Z eqn:Hz; [done|].
    apply Z.eqb_neq in Hz. lia.
  - intros Hnil. by rewrite Hnil in Hrem.
Qed.

(** The number of full batches of a positive, clamped batch size. *)
Lemma num_iters_of_pos n b q :
  (0 < b)%Z → num_iters_of n b = Ok q → q = n / Z.to_nat b.
Proof.
  intros Hb. unfold num_iters_of.
  destruct (b =? 0)%Z eqn:Hz; [apply Z.eqb_eq in Hz; lia|].
  intros [= <-]. rewrite Z.quot_div_nonneg by lia.
  rewrite <- (Z2Nat.id b) at 1 by lia.
  rewrite <- Nat2Z.inj_div. apply Nat2Z.id.
Qed.

Lemma leftover_shorter n b :
  0 < b → b ≤ n → n - n / b * b < n.
Proof.
  intros Hb Hn.
  assert (1 ≤ n / b) by (apply Nat.div_le_lower_bound; lia).
  assert (n / b * b ≤ n) by (rewrite Nat.mul_comm; apply Nat.Div0.mul_div_le).
  nia.
Qed.

(** ** Enough fuel: the recursion of [eval] through [transfer] *)

Lemma eval_fuel_enough n : ∀ f1 f2 data_in paths_out model_path device
    batch_size mask blend w,
  length paths_out ≤ n → length paths_out < f1 → length paths_out < f2 →
  eval_fuel f1 data_in paths_out model_path device batch_size mask blend w
  = eval_fuel f2 data_in paths_out model_path device batch_size mask
      blend w.
Proof.
  induction n as [|n IH]; intros f1 f2 data_in paths_out model_path device
    batch_size mask blend w Hn Hf1 Hf2;
    (destruct f1 as [|f1]; [lia|]); (destruct f2 as [|f2]; [lia|]); simpl.
  - assert (∀ e1 e2 sess w', transfer e1 sess data_in paths_out model_path
        device (Z.of_nat (length paths_out) `min` batch_size) mask blend w'
      = transfer e2 sess data_in paths_out model_path device
          (Z.of_nat (length paths_out) `min` batch_size) mask blend w')
      as Heq by (intros; apply transfer_ext; intros; lia).
    unfold try_except, bind, tf_session.
    rewrite (Heq (eval_fuel f1) (eval_fuel f2)).
    destruct (transfer _ _ _ _ _ _ _ _ _ _) as [[u|e|] w1]; try done.
    case_decide; [|done]. apply Heq.
  - assert (∀ sess w', transfer (eval_fuel f1) sess data_in paths_out
        model_path device (Z.of_nat (length paths_out) `min` batch_size)
        mask blend w'
      = transfer (eval_fuel f2) sess data_in paths_out model_path device
          (Z.of_nat (length paths_out) `min` batch_size) mask blend w')
      as Heq.
    { intros sess w'. apply transfer_ext. intros q w'' Hpos Hq _.
      apply num_iters_of_pos in Hq; [|done].
      assert (length (drop (q * Z.to_nat (Z.of_nat (length paths_out)
                `min` batch_size)) paths_out) < length paths_out).
      { rewrite length_drop, Hq. apply leftover_shorter; lia. }
      apply IH; lia. }
    unfold try_except, bind, tf_session.
    rewrite Heq.
    destruct (transfer _ _ _ _ _ _ _ _ _ _) as [[u|e|] w1]; try done.
    case_decide; [|done]. apply Heq.
Qed.

(** The equation of [eval], free of fuel. *)
Lemma eval_unfold data_in paths_out model_path device batch_size mask
    blend w :
  eval data_in paths_out model_path device batch_size mask blend w
  = try_except
      (let* sess := tf_session device in
       transfer eval sess data_in paths_out model_path device
         (Z.of_nat (length paths_out) `min` batch_size) mask blend)
      ResourceExhaustedError
      (let* sessc := tf_session "/cpu:0" in
       transfer eval sessc data_in paths_out model_path device
         (Z.of_nat (length paths_out) `min` batch_size) mask blend) w.
Proof.
  unfold eval at 1. simpl.
  assert (∀ sess w', transfer (eval_fuel (length paths_out)) sess data_in
      paths_out model_path device
      (Z.of_nat (length paths_out) `min` batch_size) mask blend w'
    = transfer eval sess data_in paths_out model_path device
        (Z.of_nat (length paths_out) `min` batch_size) mask blend w')
    as Heq.
  { intros sess w'. apply transfer_ext. intros q w'' Hpos Hq _.
    apply num_iters_of_pos in Hq; [|done].
    assert (length (drop (q * Z.to_nat (Z.of_nat (length paths_out)
              `min` batch_size)) paths_out) < length paths_out).
    { rewrite length_drop, Hq. apply leftover_shorter; lia. }
    unfold eval.
    eapply eval_fuel_enough; [reflexivity|lia|lia]. }
  unfold try_except, bind, tf_session.
  rewrite Heq.
  destruct (transfer _ _ _ _ _ _ _ _ _ _) as [[u|e|] w1]; try done.
  case_decide; [|done]. apply Heq.
Qed.

(** ** What one call writes and runs *)

Lemma lift_run {A} (r : result A) w :
  (lift r w).2 = w ∧ (lift r w).1 ≠ OutOfFuel.
Proof. by destruct r. Qed.

Lemma imread_spec p w :
  ∃ es, trace (imread p w).2 = (trace w ++ es)%list ∧ saved es = [] ∧
    (∀ n, runs_of_size n es) ∧ files (imread p w).2 = files w ∧
    (imread p w).1 ≠ OutOfFuel ∧
    (imread p w).1 ≠ Raise ResourceExhaustedError.
Proof.
  unfold imread. destruct (files w !! p).
  - exists [EvRead p]. repeat split; try done.
    intros; by apply Forall_singleton.
  - exists []. rewrite app_nil_r. repeat split; try done.
    intros; apply Forall_nil_2.
Qed.

Lemma read_img_spec p w :
  ∃ es, trace (read_img p w).2 = (trace w ++ es)%list ∧ saved es = [] ∧
    (∀ n, runs_of_size n es) ∧ files (read_img p w).2 = files w ∧
    (read_img p w).1 ≠ OutOfFuel ∧
    (read_img p w).1 ≠ Raise ResourceExhaustedError.
Proof.
  destruct (imread_spec p w) as (es & Ht & Hs & Hr & Hf & Ho & He).
  exists es. unfold read_img, bind.
  destruct (imread p w) as [[img|e|] w1]; simpl in *; try done.
  by case_match.
Qed.

Lemma sess_run_spec sess model_path img_shape x w :
  ∃ es, trace (sess_run sess model_path img_shape x w).2
        = (trace w ++ es)%list ∧ saved es = [] ∧
    runs_of_size (length x) es ∧
    files (sess_run sess model_path img_shape x w).2 = files w ∧
    (sess_run sess model_path img_shape x w).1 ≠ OutOfFuel.
Proof.
  unfold sess_run. case_match.
  - exists []. rewrite app_nil_r. repeat split; try done. apply Forall_nil_2.
  - exists [EvRun (sess_device sess) x]. repeat split; try done.
    by apply Forall_singleton.
Qed.

Lemma setitem_length x j img x' :
  setitem x j img = Ok x' → length x' = length x.
Proof.
  unfold setitem, rbind. destruct (getitem x j); [|done].
  destruct (broadcast_to _ img); [|done].
  intros [= <-]. apply length_insert.
Qed.

Lemma fill_batch_spec sess model_path img_shape : ∀ ins j x _preds w,
  let r := fill_batch sess model_path img_shape j ins x _preds w in
  ∃ es, trace r.2 = (trace w ++ es)%list ∧ saved es = [] ∧
    runs_of_size (length x) es ∧ files r.2 = files w ∧
    r.1 ≠ OutOfFuel ∧
    (∀ v, r.1 = Ret v → length v.1 = length x).
Proof.
  induction ins as [|path_in rest IH]; intros j x _preds w; simpl.
  { exists []. rewrite app_nil_r. repeat split; try done.
    - apply Forall_nil_2.
    - by intros v [= <-]. }
  unfold bind.
  destruct (read_img_spec path_in w) as (es1 & Ht1 & Hs1 & Hr1 & Hf1 & Ho1 & _).
  destruct (read_img path_in w) as [[img|e|] w1]; simpl in *; try done;
    [|exists es1; by repeat split].
  destruct (lift_run (setitem x j img) w1) as [Hw _].
  destruct (setitem x j img) as [x'|e] eqn:Hset; simpl in *;
    [|exists es1; by repeat split].
  apply setitem_length in Hset.
  destruct (sess_run_spec sess model_path img_shape x' w1)
    as (es2 & Ht2 & Hs2 & Hr2 & Hf2 & Ho2).
  destruct (sess_run sess model_path img_shape x' w1) as [[ps|e|] w2];
    simpl in *; try done.
  - destruct (IH (S j) x' (Some ps) w2) as (es3 & Ht3 & Hs3 & Hr3 & Hf3 & Ho3 & Hl3).
    exists (es1 ++ es2 ++ es3)%list. repeat split.
    + rewrite Ht3, Ht2, Ht1. by rewrite <- !app_assoc.
    + by rewrite !saved_app, Hs1, Hs2, Hs3.
    + rewrite Hset in Hr2, Hr3. by repeat apply runs_of_size_app.
    + by rewrite Hf3, Hf2.
    + done.
    + intros v Hv. rewrite (Hl3 v Hv). done.
  - exists (es1 ++ es2)%list. repeat split; try done.
    + rewrite Ht2, Ht1. by rewrite <- !app_assoc.
    + by rewrite !saved_app, Hs1, Hs2.
    + rewrite Hset in Hr2. by apply runs_of_size_app.
    + by rewrite Hf2.
Qed.

(** [postprocess] raises nothing that [eval] would catch. *)
Lemma postprocess_err x _preds i j mask blend e :
  postprocess x _preds i j mask blend = Err e → e ≠ ResourceExhaustedError.
Proof.
  unfold postprocess, rbind, getitem, np_max, np_multiply.
  repeat case_match; congruence.
Qed.

(** With a mask or a blend, batch [i] needs slot [i] of the buffer. *)
Lemma postprocess_out_of_bounds x _preds i j mask blend :
  mask = 1%Z ∨ Qgtb blend 0 = true → length x ≤ i →
  is_ok (postprocess x _preds i j mask blend) = false.
Proof.
  intros Hmb Hi. apply lookup_ge_None_2 in Hi.
  unfold postprocess, rbind, getitem. rewrite Hi.
  destruct _preds as [ps|]; [|done].
  destruct (ps !! j); [|done].
  destruct (mask =? 1)%Z eqn:Hm; [done|].
  destruct Hmb as [-> | ->]; done.
Qed.

Lemma save_batch_spec x _preds i mask blend : ∀ outs j w,
  let r := save_batch x _preds i mask blend j outs w in
  ∃ es, trace r.2 = (trace w ++ es)%list ∧
    (∀ n, runs_of_size n es) ∧
    r.1 ≠ OutOfFuel ∧ r.1 ≠ Raise ResourceExhaustedError ∧
    (is_ret r.1 = true → saved es = outs) ∧
    (mask = 1%Z ∨ Qgtb blend 0 = true → length x ≤ i → outs ≠ [] →
     is_ret r.1 = false).
Proof.
  induction outs as [|path_out rest IH]; intros j w; simpl.
  { exists []. rewrite app_nil_r. repeat split; try done.
    intros; apply Forall_nil_2. }
  unfold bind.
  pose proof (postprocess_err x _preds i j mask blend) as Herr.
  pose proof (postprocess_out_of_bounds x _preds i j mask blend) as Hoob.
  destruct (postprocess x _preds i j mask blend) as [img|e]; simpl in *.
  - destruct (IH (S j) (World (<[path_out:=encode img]> (files w)) (dirs w)
        (trace w ++ [EvSave path_out img])))
      as (es & Ht & Hr & Ho & He & Hs & _).
    exists (EvSave path_out img :: es). simpl in *. repeat split; try done.
    + rewrite Ht. by rewrite <- app_assoc.
    + intros n. apply List.Forall_cons; [done|apply Hr].
    + intros Hret. by rewrite (Hs Hret).
    + intros Hmb Hi _. by specialize (Hoob Hmb Hi).
  - exists []. rewrite app_nil_r. repeat split; try done.
    + intros; apply Forall_nil_2.
    + intros [= ->]. by apply (Herr ResourceExhaustedError).
Qed.

Lemma batch_step_spec sess data_in paths_out model_path img_shape batch_size
    mask blend i _preds w :
  let r := batch_step sess data_in paths_out model_path img_shape batch_size
             mask blend i _preds w in
  ∃ es, trace r.2 = (trace w ++ es)%list ∧
    runs_of_size batch_size es ∧
    r.1 ≠ OutOfFuel ∧
    (is_ret r.1 = true →
     saved es = take batch_size (drop (i * batch_size) paths_out)) ∧
    (r.1 = Raise ResourceExhaustedError → saved es = []) ∧
    (mask = 1%Z ∨ Qgtb blend 0 = true → batch_size ≤ i →
     take batch_size (drop (i * batch_size) paths_out) ≠ [] →
     is_ret r.1 = false).
Proof.
  unfold batch_step, bind; simpl.
  destruct (fill_batch_spec sess model_path img_shape
              (take batch_size (drop (i * batch_size) data_in)) 0
              (replicate batch_size (np_zeros img_shape)) _preds w)
    as (es1 & Ht1 & Hs1 & Hr1 & _ & Ho1 & Hl1).
  rewrite length_replicate in Hr1, Hl1.
  destruct (fill_batch _ _ _ _ _ _ _ w) as [[[x ps]|e|] w1]; simpl in *;
    try done; [|exists es1; by repeat split].
  specialize (Hl1 _ eq_refl). simpl in Hl1.
  destruct (save_batch_spec x ps i mask blend
              (take batch_size (drop (i * batch_size) paths_out)) 0 w1)
    as (es2 & Ht2 & Hr2 & Ho2 & He2 & Hs2 & Hoob).
  rewrite Hl1 in Hoob.
  destruct (save_batch _ _ _ _ _ _ _ w1) as [[[]|e|] w2]; simpl in *;
    try done.
  - exists (es1 ++ es2)%list. split_and!; try done.
    + rewrite Ht2, Ht1. by rewrite <- app_assoc.
    + by apply runs_of_size_app.
    + intros _. by rewrite saved_app, Hs1, Hs2.
  - exists (es1 ++ es2)%list. split_and!; try done.
    + rewrite Ht2, Ht1. by rewrite <- app_assoc.
    + by apply runs_of_size_app.
    + intros [= ->]. by destruct He2.
Qed.

Lemma batches_spec sess data_in paths_out model_path img_shape batch_size
    mask blend : ∀ n a _preds w,
  let r := batches sess data_in paths_out model_path img_shape batch_size
             mask blend (seq a n) _preds w in
  ∃ es, trace r.2 = (trace w ++ es)%list ∧
    runs_of_size batch_size es ∧
    r.1 ≠ OutOfFuel ∧
    (is_ret r.1 = true →
     saved es = take (n * batch_size) (drop (a * batch_size) paths_out)) ∧
    (n ≤ 1 → r.1 = Raise ResourceExhaustedError → saved es = []) ∧
    (mask = 1%Z ∨ Qgtb blend 0 = true → 0 < batch_size →
     a ≤ batch_size → batch_size < a + n →
     (a + n) * batch_size ≤ length paths_out →
     is_ret r.1 = false).
Proof.
  induction n as [|n IH]; intros a _preds w; simpl.
  { exists []. rewrite app_nil_r. split_and!; try done.
    - apply Forall_nil_2.
    - lia. }
  unfold bind.
  destruct (batch_step_spec sess data_in paths_out model_path img_shape
              batch_size mask blend a _preds w)
    as (es1 & Ht1 & Hr1 & Ho1 & Hs1 & He1 & Hoob1).
  destruct (batch_step _ _ _ _ _ _ _ _ _ _ w) as [[ps|e|] w1]; simpl in *;
    try done.
  - destruct (IH (S a) ps w1) as (es2 & Ht2 & Hr2 & Ho2 & Hs2 & He2 & Hoob2).
    exists (es1 ++ es2)%list. split_and!; try done.
    + rewrite Ht2, Ht1. by rewrite <- app_assoc.
    + by apply runs_of_size_app.
    + intros Hret. rewrite saved_app, Hs1, (Hs2 Hret) by done.
      replace (S a * batch_size) with (a * batch_size + batch_size) by lia.
      rewrite <- drop_drop. apply take_take_drop.
    + intros Hn Hree. assert (n = 0) as -> by lia.
      simpl in Hree. done.
    + intros Hmb Hpos Ha Han Hlen.
      destruct (decide (a = batch_size)) as [->|Hne].
      * exfalso. assert (true = false); [|done].
        apply Hoob1; [done|lia|].
        intros Hnil. apply (f_equal length) in Hnil.
        rewrite length_take, length_drop in Hnil. simpl in Hnil. nia.
      * apply Hoob2; try done; lia.
  - exists es1. split_and!; try done.
    intros _ [= ->]. by apply He1.
Qed.

Lemma saver_restore_spec sess model_path w :
  let r := saver_restore sess model_path w in
  ∃ es, trace r.2 = (trace w ++ es)%list ∧ saved es = [] ∧
    (∀ n, runs_of_size n es) ∧ files r.2 = files w ∧
    r.1 ≠ OutOfFuel ∧ r.1 ≠ Raise ResourceExhaustedError.
Proof.
  unfold saver_restore. case_match; simpl.
  - exists [EvRestore (sess_device sess) model_path].
    split_and!; try done. intros; by apply Forall_singleton.
  - exists []. rewrite app_nil_r. split_and!; try done.
    intros; apply Forall_nil_2.
Qed.

(** The part of a [transfer] call that is its own: the full batches. *)
Lemma transfer_own_spec sess data_in paths_out model_path device batch_size
    mask blend w :
  let r := transfer no_eval sess data_in paths_out model_path device
             batch_size mask blend w in
  let b := Z.to_nat batch_size in
  ∃ es, trace r.2 = (trace w ++ es)%list ∧
    runs_of_size b es ∧
    r.1 ≠ OutOfFuel ∧
    (is_ret r.1 = true →
     (0 < batch_size)%Z ∧
     saved es = take (length paths_out / b * b) paths_out) ∧
    (length paths_out / b ≤ 1 → r.1 = Raise ResourceExhaustedError →
     saved es = []) ∧
    (mask = 1%Z ∨ Qgtb blend 0 = true → (0 < batch_size)%Z →
     b < length paths_out / b → is_ret r.1 = false).
Proof.
  unfold transfer, bind; simpl.
  destruct (lift_run (getitem data_in 0) w) as [Hw0 _].
  destruct (getitem data_in 0) as [first|e]; simpl in *.
  2:{ exists []. rewrite app_nil_r. split_and!; try done. apply Forall_nil_2. }
  destruct (read_img_spec first w) as (es1 & Ht1 & Hs1 & Hr1 & _ & Ho1 & He1).
  destruct (read_img first w) as [[img|e|] w1]; simpl in *; try done;
    [|exists es1; by split_and!].
  unfold tf_placeholder.
  destruct (batch_size <? 0)%Z eqn:Hneg; simpl;
    [exists es1; by split_and!|].
  apply Z.ltb_ge in Hneg.
  destruct (saver_restore_spec sess model_path w1)
    as (es2 & Ht2 & Hs2 & Hr2 & _ & Ho2 & He2).
  destruct (saver_restore sess model_path w1) as [[u|e|] w2]; simpl in *;
    try done.
  2:{ exists (es1 ++ es2)%list. split_and!; try done; spec_goal. }
  destruct (num_iters_of (length paths_out) batch_size) as [n|e] eqn:Hn;
    simpl.
  2:{ exists (es1 ++ es2)%list. split_and!; try done; spec_goal. }
  assert (0 < batch_size)%Z as Hpos.
  { unfold num_iters_of in Hn. destruct (batch_size =? 0)%Z eqn:Hz; [done|].
    apply Z.eqb_neq in Hz. lia. }
  apply num_iters_of_pos in Hn; [|done]. subst n.
  destruct (batches_spec sess data_in paths_out model_path (shape img)
              (Z.to_nat batch_size) mask blend
              (length paths_out / Z.to_nat batch_size) 0 None w2)
    as (es3 & Ht3 & Hr3 & Ho3 & Hs3 & He3 & Hoob3).
  destruct (batches _ _ _ _ _ _ _ _ _ _ w2) as [[u'|e|] w3]; simpl in *;
    try done.
  - assert (∀ c : bool, (if c then no_eval (drop (length paths_out
                 / Z.to_nat batch_size * Z.to_nat batch_size) data_in)
                 (drop (length paths_out / Z.to_nat batch_size
                  * Z.to_nat batch_size) paths_out)
                 model_path device batch_size mask blend
               else ret ()) w3 = (Ret (), w3)) as Hif by (by intros []).
    rewrite Hif. simpl.
    exists (es1 ++ es2 ++ es3)%list. split_and!; try done; try spec_goal.
    + intros _. split; [done|].
      rewrite !saved_app, Hs1, Hs2, Hs3 by done. simpl.
      by rewrite drop_0.
    + intros Hmb _ Hlt. apply Hoob3; try done; try lia.
      simpl. rewrite Nat.mul_comm. apply Nat.Div0.mul_div_le.
  - exists (es1 ++ es2 ++ es3)%list. split_and!; try done; try spec_goal.
    intros Hle Hree. rewrite !saved_app, Hs1, Hs2. simpl.
      by apply He3.
Qed.

(** A [transfer] call is its own full batches, then [eval] on the
    leftover. *)
Lemma transfer_split (e : eval_t) sess data_in paths_out model_path device
    batch_size mask blend w :
  let k := length paths_out / Z.to_nat batch_size * Z.to_nat batch_size in
  transfer e sess data_in paths_out model_path device batch_size mask blend w
  = (let* _ := transfer no_eval sess data_in paths_out model_path device
                 batch_size mask blend in
     if 0 <? length (drop k data_in)
     then e (drop k data_in) (drop k paths_out) model_path device batch_size
            mask blend
     else ret tt) w.
Proof.
  unfold transfer, bind; simpl.
  destruct (lift (getitem data_in 0) w) as [[first|e'|] w0]; try done.
  destruct (read_img first w0) as [[img|e'|] w1]; try done.
  unfold tf_placeholder.
  destruct (batch_size <? 0)%Z eqn:Hneg; simpl; [done|].
  apply Z.ltb_ge in Hneg.
  destruct (saver_restore sess model_path w1) as [[u|e'|] w2]; try done.
  destruct (num_iters_of (length paths_out) batch_size) as [n|e'] eqn:Hn;
    simpl; [|done].
  assert (0 < batch_size)%Z as Hpos.
  { unfold num_iters_of in Hn. destruct (batch_size =? 0)%Z eqn:Hz; [done|].
    apply Z.eqb_neq in Hz. lia. }
  apply num_iters_of_pos in Hn; [|done]. subst n.
  destruct (batches _ _ _ _ _ _ _ _ _ _ w2) as [[u'|e'|] w3]; try done.
  by case_match.
Qed.


(** ** Totality of [eval] *)

Lemma transfer_total (e : eval_t) sess data_in paths_out model_path device
    batch_size mask blend w :
  let k := length paths_out / Z.to_nat batch_size * Z.to_nat batch_size in
  (∀ w', (0 < batch_size)%Z → drop k data_in ≠ [] →
     (e (drop k data_in) (drop k paths_out) model_path device batch_size
        mask blend w').1 ≠ OutOfFuel) →
  (transfer e sess data_in paths_out model_path device batch_size mask
     blend w).1 ≠ OutOfFuel.
Proof.
  intros k He. rewrite transfer_split. unfold bind.
  destruct (transfer_own_spec sess data_in paths_out model_path device
              batch_size mask blend w) as (es & _ & _ & Ho & Hret & _).
  destruct (transfer no_eval _ _ _ _ _ _ _ _ w) as [[u|e'|] w1];
    simpl in *; try done.
  destruct (Hret eq_refl) as [Hpos _].
  case_match eqn:Hrem; [|done].
  apply He; [done|]. intros Hnil. fold k in Hrem. by rewrite Hnil in Hrem.
Qed.

Lemma eval_fuel_total n : ∀ f data_in paths_out model_path device batch_size
    mask blend w,
  length paths_out ≤ n → length paths_out < f →
  (eval_fuel f data_in paths_out model_path device batch_size mask blend
     w).1 ≠ OutOfFuel.
Proof.
  induction n as [|n IH]; intros f data_in paths_out model_path device
    batch_size mask blend w Hn Hf; (destruct f as [|f]; [lia|]); simpl.
  - assert (∀ sess w', (transfer (eval_fuel f) sess data_in paths_out
        model_path device (Z.of_nat (length paths_out) `min` batch_size)
        mask blend w').1 ≠ OutOfFuel) as Htot.
    { intros sess w'. apply transfer_total. intros; lia. }
    unfold try_except, bind, tf_session.
    pose proof (Htot (Session device) (log (EvSession device) w)) as H1.
    destruct (transfer _ _ _ _ _ _ _ _ _ _) as [[u|e|] w1]; try done.
    case_decide; [|done]. apply Htot.
  - assert (∀ sess w', (transfer (eval_fuel f) sess data_in paths_out
        model_path device (Z.of_nat (length paths_out) `min` batch_size)
        mask blend w').1 ≠ OutOfFuel) as Htot.
    { intros sess w'. apply transfer_total. intros w'' Hpos _.
      assert (length (drop (length paths_out
                / Z.to_nat (Z.of_nat (length paths_out) `min` batch_size)
                * Z.to_nat (Z.of_nat (length paths_out) `min` batch_size))
                paths_out) < length paths_out).
      { rewrite length_drop. apply leftover_shorter; lia. }
      apply IH; lia. }
    unfold try_except, bind, tf_session.
    pose proof (Htot (Session device) (log (EvSession device) w)) as H1.
    destruct (transfer _ _ _ _ _ _ _ _ _ _) as [[u|e|] w1]; try done.
    case_decide; [|done]. apply Htot.
Qed.

Lemma eval_total data_in paths_out model_path device batch_size mask blend w :
  (eval data_in paths_out model_path device batch_size mask blend w).1
  ≠ OutOfFuel.
Proof. unfold eval. eapply eval_fuel_total; [reflexivity|lia]. Qed.

(** ** A list that fits one batch: no leftover, no recursion *)



Lemma leftover_length {A} (l : list A) b :
  length (drop (length l / b * b) l) = length l `mod` b.
Proof.
  rewrite length_drop, Nat.Div0.mod_eq. f_equal. apply Nat.mul_comm.
Qed.

(** A list that fits one batch is evaluated without recursion. *)
Lemma eval_fuel_single f1 f2 data_in paths_out model_path device batch_size
    mask blend w :
  length data_in = length paths_out →
  (Z.of_nat (length paths_out) ≤ batch_size)%Z →
  eval_fuel (S f1) data_in paths_out model_path device batch_size mask
    blend w
  = eval_fuel (S f2) data_in paths_out model_path device batch_size mask
      blend w.
Proof.
  intros Hlen Hle. simpl. rewrite Z.min_l by done.
  assert (∀ sess w', transfer (eval_fuel f1) sess data_in paths_out
      model_path device (Z.of_nat (length paths_out)) mask blend w'
    = transfer (eval_fuel f2) sess data_in paths_out model_path device
        (Z.of_nat (length paths_out)) mask blend w') as Heq.
  { intros sess w'. apply transfer_ext. intros q w'' Hpos Hq Hrem.
    apply num_iters_of_pos in Hq; [|done]. exfalso. apply Hrem.
    rewrite Hq, Nat2Z.id, Nat.div_same, Nat.mul_1_l by lia.
    rewrite <- Hlen. apply drop_all. }
  unfold try_except, bind, tf_session. rewrite Heq.
  destruct (transfer _ _ _ _ _ _ _ _ _ _) as [[u|e|] w1]; try done.
  case_decide; [|done]. apply Heq.
Qed.

(** On aligned lists the leftover fits one batch: two levels suffice. *)
Lemma eval_fuel_aligned f1 f2 data_in paths_out model_path device batch_size
    mask blend w :
  length data_in = length paths_out → 2 ≤ f1 → 2 ≤ f2 →
  eval_fuel f1 data_in paths_out model_path device batch_size mask blend w
  = eval_fuel f2 data_in paths_out model_path device batch_size mask
      blend w.
Proof.
  intros Hlen Hf1 Hf2.
  destruct f1 as [|f1]; [lia|]. destruct f2 as [|f2]; [lia|].
  simpl.
  set (B := (Z.of_nat (length paths_out) `min` batch_size)%Z).
  assert (∀ sess w', transfer (eval_fuel f1) sess data_in paths_out
      model_path device B mask blend w'
    = transfer (eval_fuel f2) sess data_in paths_out model_path device
        B mask blend w') as Heq.
  { intros sess w'. apply transfer_ext. intros q w'' Hpos Hq _.
    apply num_iters_of_pos in Hq; [|done]. subst q.
    destruct f1 as [|f1]; [lia|]. destruct f2 as [|f2]; [lia|].
    apply eval_fuel_single.
    - by rewrite !length_drop, Hlen.
    - rewrite leftover_length.
      assert (length paths_out `mod` Z.to_nat B < Z.to_nat B)
        by (apply Nat.mod_upper_bound; lia).
      lia. }
  unfold try_except, bind, tf_session. rewrite Heq.
  destruct (transfer _ _ _ _ _ _ _ _ _ _) as [[u|e|] w1]; try done.
  case_decide; [|done]. apply Heq.
Qed.

(** ** What [postprocess] computes *)

Lemma bcast_shape_same s : bcast_shape s s = Some s.
Proof.
  destruct s as [[h w'] c]. unfold bcast_shape, bcast_dim.
  by rewrite !Nat.eqb_refl.
Qed.

Lemma bidx_lt d i : i < d → bidx d i = i.
Proof.
  unfold bidx. intros Hi. destruct (d =? 1) eqn:Hd; [|done].
  apply Nat.eqb_eq in Hd. lia.
Qed.

Lemma bitem_in_bounds x a c k :
  in_bounds (shape x) a c k → bitem x a c k = item x a c k.
Proof.
  unfold bitem, in_bounds. destruct (shape x) as [[h w'] d].
  intros (Ha & Hc & Hk). by rewrite !bidx_lt.
Qed.

Lemma np_multiply_same x y :
  shape y = shape x →
  ∃ z, np_multiply x y = Ok z ∧ shape z = shape x ∧
    ∀ a c k, in_bounds (shape x) a c k →
      item z a c k = (item x a c k * item y a c k)%Q.
Proof.
  intros Hs. unfold np_multiply. rewrite Hs, bcast_shape_same.
  eexists. split_and!; [done..|]. intros a c k Hin. simpl.
  rewrite !bitem_in_bounds; [done|by rewrite Hs|done].
Qed.

Lemma postprocess_mask x ps i j mask blend xi xj p m :
  mask = 1%Z → Qgtb blend 0 = false →
  x !! i = Some xi → x !! j = Some xj → ps !! j = Some p →
  np_max xi = Ok m → shape p = shape xj →
  ∃ img, postprocess x (Some ps) i j mask blend = Ok img ∧
    shape img = shape xj ∧
    ∀ a c k, in_bounds (shape xj) a c k →
      item img a c k
      = ((if Qgtb (item xj a c k) (m * 0.01) then 1 else 0)
         * item (np_clip_uint8 p) a c k)%Q.
Proof.
  intros -> Hb Hi Hj Hp Hm Hs.
  unfold postprocess, rbind, getitem. rewrite Hi, Hj, Hp, Hm, Hb. simpl.
  unfold shape_eqb. rewrite Hs, bool_decide_eq_true_2 by done. simpl.
  destruct (np_multiply_same (np_where_gt xj (m * 0.01)) (np_clip_uint8 p))
    as (z & -> & Hz & Hitem); [done|].
  exists z. split_and!; done.
Qed.

Lemma postprocess_blend x ps i j mask blend xi p :
  mask ≠ 1%Z → Qgtb blend 0 = true →
  x !! i = Some xi → ps !! j = Some p → shape p = shape xi →
  ∃ img, postprocess x (Some ps) i j mask blend = Ok img ∧
    shape img = shape xi ∧
    ∀ a c k, in_bounds (shape xi) a c k →
      item img a c k
      = (item xi a c k * blend * item (np_clip_uint8 p) a c k)%Q.
Proof.
  intros Hmask Hb Hi Hp Hs.
  unfold postprocess, rbind, getitem. rewrite Hi, Hp, Hb. simpl.
  apply Z.eqb_neq in Hmask. rewrite Hmask.
  unfold shape_eqb. simpl. rewrite Hs, bool_decide_eq_true_2 by done. simpl.
  destruct (np_multiply_same (np_scale xi blend) (np_clip_uint8 p))
    as (z & -> & Hz & Hitem); [done|].
  exists z. split_and!; done.
Qed.

(** ** Runs that nothing disturbs *)

Lemma loaded_app es1 es2 :
  loaded (es1 ++ es2) = (loaded es1 ++ loaded es2)%list.
Proof. apply omap_app. Qed.

Lemma read_img_decoded p w :
  read_img p w
  = match decoded (files w) p with
    | Some img => (Ret img, log (EvRead p) w)
    | None => (Raise IOError, w)
    end.
Proof.
  unfold read_img, bind, imread, decoded.
  destruct (files w !! p) as [img|]; simpl; [|done]. by case_match.
Qed.

Lemma broadcast_to_same img :
  broadcast_to (shape img) img = Ok (NdArray (shape img) (bitem img))
  ∧ same_pixels (NdArray (shape img) (bitem img)) img.
Proof.
  split.
  - unfold broadcast_to, stretch_dim. destruct (shape img) as [[h w'] c].
    by rewrite !Nat.eqb_refl.
  - split; [done|]. intros a c k Hin. simpl. by apply bitem_in_bounds.
Qed.

Lemma fill_batch_ok sess model_path sh : ∀ ins j x _preds w,
  (∀ p, p ∈ ins → readable sh (files w) p) →
  Forall (λ a, shape a = sh) x → j + length ins ≤ length x →
  exhausted (sess_device sess) (length x) sh = false →
  ∃ x' w' es,
    fill_batch sess model_path sh j ins x _preds w
    = (Ret (x', match ins with
                | [] => _preds
                | _ => Some (net model_path (sess_device sess) x')
                end), w')
    ∧ files w' = files w ∧ trace w' = (trace w ++ es)%list
    ∧ loaded es = ins ∧ saved es = []
    ∧ length x' = length x ∧ Forall (λ a, shape a = sh) x'
    ∧ (∀ t p, ins !! t = Some p →
         ∃ img v, decoded (files w) p = Some img
           ∧ x' !! (j + t) = Some v ∧ same_pixels v img)
    ∧ (∀ t, t < j → x' !! t = x !! t).
Proof.
  induction ins as [|path_in rest IH]; intros j x _preds w Hfiles Hx Hj Hmem;
    simpl.
  { exists x, w, []. rewrite app_nil_r. split_and!; try done. }
  unfold bind. rewrite read_img_decoded.
  destruct (Hfiles path_in) as (img & Himg & Hshape); [by left|].
  rewrite Himg. subst sh.
  destruct (lookup_lt_is_Some_2 x j) as [slot Hslot]; [simpl in Hj; lia|].
  assert (shape slot = shape img) as Hslotsh
    by (by eapply (Forall_lookup_1 (λ a, shape a = shape img))).
  destruct (broadcast_to_same img) as [Hbc Hsame].
  unfold setitem, rbind, getitem. rewrite Hslot, Hslotsh, Hbc.
  simpl. unfold sess_run. rewrite length_insert, Hmem.
  set (v := NdArray (shape img) (bitem img)).
  set (x1 := <[j:=v]> x).
  set (w1 := log (EvRun (sess_device sess) x1) (log (EvRead path_in) w)).
  destruct (IH (S j) x1 (Some (net model_path (sess_device sess) x1)) w1)
    as (x' & w' & es & Hrun & Hf & Ht & Hl & Hs & Hlen & Hall & Hcont & Hlow).
  - intros p Hp. apply Hfiles. by right.
  - by apply Forall_insert.
  - unfold x1. rewrite length_insert. simpl in Hj. lia.
  - unfold x1. by rewrite length_insert.
  - exists x', w',
      (EvRead path_in :: EvRun (sess_device sess) x1 :: es).
    assert (x' !! j = Some v) as Hxj.
    { rewrite Hlow by lia. unfold x1. apply list_lookup_insert_eq.
      simpl in Hj. lia. }
    split_and!.
    + rewrite Hrun. f_equal. f_equal.
      destruct rest; [|done].
      simpl in Hrun. unfold ret in Hrun. by injection Hrun as <- _.
    + done.
    + rewrite Ht. unfold w1. simpl. by rewrite <- !app_assoc.
    + simpl. by rewrite Hl.
    + done.
    + rewrite Hlen. unfold x1. by rewrite length_insert.
    + done.
    + intros [|t] p Hp; simpl in Hp.
      * injection Hp as <-. exists img, v. rewrite Nat.add_0_r.
        split_and!; try done.
      * destruct (Hcont t p Hp) as (img' & v' & Hd & Hx' & Hsp).
        exists img', v'. split_and!; try done.
        by replace (j + S t) with (S j + t) by lia.
    + intros t Hlt. rewrite Hlow by lia. unfold x1.
      apply list_lookup_insert_ne. lia.
Qed.









(** ** The claims on the orchestration *)


(** C5. For aligned non-empty lists and a batch size of at least one, the
    clamped batch size is at least one and at most the length of the
    list, so that a call runs at least one full batch and leaves strictly
    fewer images than it received, fewer than one batch; the recursion
    of [eval] through [transfer] returns with a budget of two levels,
    with the result of [eval]. *)
Theorem eval_recursion_terminates fuel data_in paths_out model_path device
    batch_size mask blend w :
  data_in ≠ [] → length data_in = length paths_out → (1 ≤ batch_size)%Z →
  2 ≤ fuel →
  let b := Z.to_nat (Z.of_nat (length paths_out) `min` batch_size) in
  let k := length paths_out / b * b in
  1 ≤ b ∧ b ≤ length paths_out ∧ 1 ≤ length paths_out / b
  ∧ length (drop k data_in) < length data_in
  ∧ length (drop k data_in) < b
  ∧ (eval_fuel fuel data_in paths_out model_path device batch_size mask
       blend w).1 ≠ OutOfFuel
  ∧ eval_fuel fuel data_in paths_out model_path device batch_size mask
      blend w
    = eval data_in paths_out model_path device batch_size mask blend w.
Proof.
  intros Hne Hlen Hb Hfuel b k.
  assert (0 < length paths_out) as HN
    by (rewrite <- Hlen; destruct data_in; [done|simpl; lia]).
  assert (1 ≤ b ∧ b ≤ length paths_out) as [Hb1 HbN] by lia.
  assert (1 ≤ length paths_out / b)
    by (apply Nat.div_le_lower_bound; lia).
  assert (length (drop k data_in) = length paths_out `mod` b) as Hin
    by (subst k; rewrite <- Hlen; apply leftover_length).
  assert (length paths_out `mod` b < b)
    by (apply Nat.mod_upper_bound; lia).
  split_and!; try done; try lia.
  - rewrite (eval_fuel_aligned fuel (S (length paths_out))) by (done || lia).
    apply eval_total.
  - unfold eval. apply eval_fuel_aligned; (done || lia).
Qed.


(** Every call only appends to the trace. *)
Lemma transfer_extends (e : eval_t) sess data_in paths_out model_path device
    batch_size mask blend w :
  (∀ d p w', ∃ es,
     trace (e d p model_path device batch_size mask blend w').2
     = (trace w' ++ es)%list) →
  ∃ es, trace (transfer e sess data_in paths_out model_path device batch_size
                 mask blend w).2 = (trace w ++ es)%list.
Proof.
  intros He. rewrite transfer_split. unfold bind.
  destruct (transfer_own_spec sess data_in paths_out model_path device
              batch_size mask blend w) as (es1 & Ht1 & _).
  destruct (transfer no_eval _ _ _ _ _ _ _ _ w) as [[u|e'|] w1];
    simpl in *; try by exists es1.
  case_match; [|by exists es1].
  edestruct He as (es2 & Ht2). rewrite Ht2, Ht1.
  exists (es1 ++ es2)%list. by rewrite app_assoc.
Qed.

Lemma eval_fuel_extends f : ∀ data_in paths_out model_path device batch_size
    mask blend w,
  ∃ es, trace (eval_fuel f data_in paths_out model_path device batch_size
                 mask blend w).2 = (trace w ++ es)%list.
Proof.
  induction f as [|f IH]; intros data_in paths_out model_path device
    batch_size mask blend w; simpl.
  { exists []. by rewrite app_nil_r. }
  assert (∀ sess w', ∃ es,
    trace (transfer (eval_fuel f) sess data_in paths_out model_path device
             (Z.of_nat (length paths_out) `min` batch_size) mask blend w').2
    = (trace w' ++ es)%list) as Htr.
  { intros sess w'. apply transfer_extends. intros d p w''. apply IH. }
  unfold try_except, bind, tf_session.
  destruct (Htr (Session device) (log (EvSession device) w)) as (es1 & Ht1).
  destruct (transfer _ _ _ _ _ _ _ _ _ _) as [[u|e|] w1]; simpl in *;
    try (exists (EvSession device :: es1); rewrite Ht1;
         by rewrite <- app_assoc).
  case_decide.
  - destruct (Htr (Session "/cpu:0") (log (EvSession "/cpu:0") w1))
      as (es2 & Ht2).
    exists (EvSession device :: es1 ++ EvSession "/cpu:0" :: es2)%list.
    rewrite Ht2. simpl. rewrite Ht1. by rewrite <- !app_assoc.
  - exists (EvSession device :: es1). simpl. rewrite Ht1.
    by rewrite <- app_assoc.
Qed.

(** C6. [eval] never runs out of recursion and makes one attempt in a
    session on the configured device.  When that attempt returns, or
    raises anything but a resource exhaustion, its outcome and state are
    those of [eval]; when it raises a resource exhaustion, [eval] is a
    second attempt, from the state the first one left, in a new session
    on ["/cpu:0"] with the same inputs, outputs, model, batch size, mask
    and blend, and the outcome of that attempt, whatever it is, is the
    outcome of [eval]. *)
Theorem eval_single_device_fallback data_in paths_out model_path device
    batch_size mask blend w :
  let b := Z.min (Z.of_nat (length paths_out)) batch_size in
  let primary :=
    let* sess := tf_session device in
    transfer eval sess data_in paths_out model_path device b mask blend in
  let fallback :=
    let* sessc := tf_session "/cpu:0" in
    transfer eval sessc data_in paths_out model_path device b mask blend in
  let r := eval data_in paths_out model_path device batch_size mask blend w in
  r.1 ≠ OutOfFuel
  ∧ (∀ w1, primary w = (Ret tt, w1) → r = (Ret tt, w1))
  ∧ (∀ e w1, primary w = (Raise e, w1) → e ≠ ResourceExhaustedError →
       r = (Raise e, w1))
  ∧ (∀ w1, primary w = (Raise ResourceExhaustedError, w1) → r = fallback w1)
  ∧ (∃ es, trace (primary w).2 = (trace w ++ EvSession device :: es)%list)
  ∧ (∀ w1, ∃ es,
       trace (fallback w1).2 = (trace w1 ++ EvSession "/cpu:0" :: es)%list).
Proof.
  intros b primary fallback r.
  assert (r = try_except primary ResourceExhaustedError fallback w) as Hr
    by apply eval_unfold.
  assert (∀ dev w', ∃ es,
    trace ((let* sess := tf_session dev in
            transfer eval sess data_in paths_out model_path device b mask
              blend) w').2 = (trace w' ++ EvSession dev :: es)%list) as Htr.
  { intros dev w'. unfold bind, tf_session.
    destruct (transfer_extends eval (Session dev) data_in paths_out
                model_path device b mask blend (log (EvSession dev) w'))
      as (es & Ht).
    { intros d p w''. apply eval_fuel_extends. }
    exists es.
    destruct (transfer _ _ _ _ _ _ _ _ _ _) as [[u|e|] w1]; simpl in *;
      rewrite Ht; by rewrite <- app_assoc. }
  split_and!.
  - apply eval_total.
  - intros w1 Hp. by rewrite Hr; unfold try_except; rewrite Hp.
  - intros e w1 Hp Hne. rewrite Hr; unfold try_except; rewrite Hp.
    by case_decide.
  - intros w1 Hp. rewrite Hr; unfold try_except; rewrite Hp.
    by case_decide.
  - apply Htr.
  - intros w1. apply Htr.
Qed.

(** C8. [eval] batches with the requested batch size clamped to the number
    of outputs: the clamp is taken once, before the attempt on the
    configured device, and the same value is passed to the fallback
    attempt; the requested size matters through its clamp only, and the
    buffer of every forward run of a call's own batches has that many
    slots. *)
Theorem eval_clamps_batch_size data_in paths_out model_path device batch_size
    mask blend w :
  let b := Z.min (Z.of_nat (length paths_out)) batch_size in
  eval data_in paths_out model_path device batch_size mask blend w
  = try_except
      (let* sess := tf_session device in
       transfer eval sess data_in paths_out model_path device b mask blend)
      ResourceExhaustedError
      (let* sessc := tf_session "/cpu:0" in
       transfer eval sessc data_in paths_out model_path device b mask blend)
      w
  ∧ eval data_in paths_out model_path device batch_size mask blend w
    = eval data_in paths_out model_path device b mask blend w
  ∧ (∀ sess w', ∃ es,
       trace (transfer no_eval sess data_in paths_out model_path device b
                mask blend w').2 = (trace w' ++ es)%list
       ∧ runs_of_size (Z.to_nat b) es).
Proof.
  intros b. split_and!.
  - apply eval_unfold.
  - rewrite !eval_unfold. fold b.
    by replace (Z.of_nat (length paths_out) `min` b)%Z with b by lia.
  - intros sess w'.
    destruct (transfer_own_spec sess data_in paths_out model_path device b
                mask blend w') as (es & Ht & Hr & _).
    by exists es.
Qed.

(** C4, as amended.  The mask threshold and the blend multiplicand read
    slot [i] of the batch buffer, [i] the index of the batch.  A run with
    [mask = 1] or [blend > 0] whose number of full batches exceeds the
    clamped batch size [b], that is a run on at least [b * (b + 1)]
    images, therefore raises an exception: slot [b] of a buffer of [b]
    slots is out of bounds.  Where slot [i] exists, the mask of image [j]
    is thresholded at one percent of the maximum of slot [i], and the
    blend multiplies image [j]'s prediction by slot [i]; and after the
    fill loop slot [t] of the buffer holds the [t]-th image of the batch,
    so that slot [i] is image [i] of the batch, not image [j]. *)
Theorem mask_blend_index_batch data_in paths_out model_path device batch_size
    mask blend w :
  mask = 1%Z ∨ (0 < blend)%Q →
  let b := Z.to_nat (Z.min (Z.of_nat (length paths_out)) batch_size) in
  b < length paths_out / b →
  b * (b + 1) ≤ length paths_out
  ∧ is_raise (eval data_in paths_out model_path device batch_size mask
                blend w).1 = true
  ∧ (∀ x _preds i j, length x = b → b ≤ i →
       is_ok (postprocess x _preds i j mask blend) = false)
  ∧ (∀ x ps i j xi xj p m, mask = 1%Z → ¬ (0 < blend)%Q →
       x !! i = Some xi → x !! j = Some xj → ps !! j = Some p →
       np_max xi = Ok m → shape p = shape xj →
       ∃ img, postprocess x (Some ps) i j mask blend = Ok img ∧
         shape img = shape xj ∧
         ∀ a c k, in_bounds (shape xj) a c k →
           item img a c k
           = ((if Qgtb (item xj a c k) (m * 0.01) then 1 else 0)
              * item (np_clip_uint8 p) a c k)%Q)
  ∧ (∀ x ps i j xi p, mask ≠ 1%Z → (0 < blend)%Q →
       x !! i = Some xi → ps !! j = Some p → shape p = shape xi →
       ∃ img, postprocess x (Some ps) i j mask blend = Ok img ∧
         shape img = shape xi ∧
         ∀ a c k, in_bounds (shape xi) a c k →
           item img a c k
           = (item xi a c k * blend * item (np_clip_uint8 p) a c k)%Q)
  ∧ (∀ sess sh ins _preds w0, length ins ≤ b →
       (∀ p, p ∈ ins → readable sh (files w0) p) →
       exhausted (sess_device sess) b sh = false →
       ∃ x' ps' w',
         fill_batch sess model_path sh 0 ins (replicate b (np_zeros sh))
           _preds w0 = (Ret (x', ps'), w')
         ∧ ∀ t p, ins !! t = Some p →
             ∃ img v, decoded (files w0) p = Some img
               ∧ x' !! t = Some v ∧ same_pixels v img).
Proof.
  intros Hmb b Hlt.
  assert (mask = 1%Z ∨ Qgtb blend 0 = true) as Hmb'
    by (destruct Hmb; [by left|right; by apply Qgtb_lt]).
  assert (0 < b) as Hb by (destruct b; [simpl in Hlt; lia|lia]).
  split_and!.
  - assert (b + 1 ≤ length paths_out / b) as Hq by lia.
    apply (Nat.mul_le_mono_l _ _ b) in Hq.
    pose proof (Nat.Div0.mul_div_le (length paths_out) b). lia.
  - assert (∀ dev w',
      is_raise ((let* sess := tf_session dev in
                 transfer eval sess data_in paths_out model_path device
                   (Z.of_nat (length paths_out) `min` batch_size) mask
                   blend) w').1 = true) as Hfail.
    { intros dev w'. unfold bind, tf_session. rewrite transfer_split.
      unfold bind.
      destruct (transfer_own_spec (Session dev) data_in paths_out model_path
                  device (Z.of_nat (length paths_out) `min` batch_size) mask
                  blend (log (EvSession dev) w'))
        as (es & _ & _ & Ho & _ & _ & Hoob).
      specialize (Hoob Hmb' ltac:(lia) Hlt).
      by destruct (transfer no_eval _ _ _ _ _ _ _ _ _) as [[u|e|] w1]. }
    rewrite eval_unfold. unfold try_except.
    pose proof (Hfail device w) as H1.
    destruct ((let* sess := tf_session device in _) w) as [[u|e|] w1];
      try done.
    case_decide; [apply Hfail|done].
  - intros x _preds i j Hx Hi. apply postprocess_out_of_bounds; [done|lia].
  - intros x ps i j xi xj p m Hmask Hblend. apply postprocess_mask; [done|].
    destruct (Qgtb blend 0) eqn:Hg; [|done].
    by apply Qgtb_lt in Hg.
  - intros x ps i j xi p Hmask Hblend. apply postprocess_blend; [done|].
    by apply Qgtb_lt.
  - intros sess sh ins _preds w0 Hins Hfiles Hmem.
    destruct (fill_batch_ok sess model_path sh ins 0
                (replicate b (np_zeros sh)) _preds w0)
      as (x' & w' & es & Hrun & _ & _ & _ & _ & _ & _ & Hcont & _).
    + done.
    + by apply Forall_replicate.
    + rewrite length_replicate. lia.
    + by rewrite length_replicate.
    + eexists x', _, w'. split; [exact Hrun|]. apply Hcont.
Qed.



(** ** Option parsing *)


(** ** Grouping by shape *)

Lemma pretty_N_char_digit x : is_digit (pretty_N_char x).
Proof.
  unfold is_digit, pretty_N_char.
  destruct x as [|p]; [done|].
  do 4 (try destruct p as [p|p|]); done.
Qed.

Lemma pretty_N_go_digits x : ∀ s, digits s → digits (pretty_N_go x s).
Proof.
  induction (N.lt_wf_0 x) as [x _ IH]; intros s Hs.
  destruct (decide (x = 0)%N) as [->|Hx]; [by rewrite pretty_N_go_0|].
  rewrite pretty_N_go_step by lia. apply IH.
  - apply N.div_lt; lia.
  - split; [apply pretty_N_char_digit|done].
Qed.

Lemma pretty_nat_digits (n : nat) : digits (pretty n).
Proof.
  unfold pretty, pretty_nat, pretty, pretty_N. case_decide.
  - by split.
  - by apply pretty_N_go_digits.
Qed.

(** Two strings of digits followed by an ["x"] split a string alike. *)
Lemma digits_x_inj a a' r r' :
  digits a → digits a' → a +:+ "x" +:+ r = a' +:+ "x" +:+ r' →
  a = a' ∧ r = r'.
Proof.
  revert a'. induction a as [|c a IH]; intros [|c' a'] Ha Ha' Heq;
    simpl in *.
  - by injection Heq.
  - injection Heq as <- _. by destruct Ha' as [Hd _].
  - injection Heq as -> _. by destruct Ha as [Hd _].
  - injection Heq as -> Heq. destruct Ha as [_ Ha], Ha' as [_ Ha'].
    destruct (IH a' Ha Ha' Heq) as [-> ->]. done.
Qed.

Lemma shape_key_inj s t : shape_key s = shape_key t → s = t.
Proof.
  destruct s as [[h w] c], t as [[h' w'] c']. unfold shape_key. intros Heq.
  apply digits_x_inj in Heq as [Hh Heq]; [|apply pretty_nat_digits..].
  apply digits_x_inj in Heq as [Hw Hc]; [|apply pretty_nat_digits..].
  apply (inj pretty) in Hh, Hw, Hc. by subst.
Qed.

Lemma filter_none {A} (P : A → Prop) `{!∀ x, Decision (P x)} (l : list A) :
  (∀ x, ¬ P x) → filter P l = [].
Proof.
  intros HP. induction l as [|x l IH]; [done|].
  by rewrite filter_cons_False.
Qed.

(** The groups of a dictionary whose entries are the classes of a list
    hold the elements of the list, each once. *)
Lemma groups_partition {A B} (key : A → string) (f : A → B) :
  ∀ (g : gmap string (list B)) (l : list A),
  (∀ s, g !!! s = f <$> filter (λ x, key x = s) l) →
  mjoin (map_to_list g).*2 ≡ₚ f <$> l.
Proof.
  intros g. induction g as [|k v g Hk IH] using map_ind; intros l Hg.
  - rewrite map_to_list_empty. simpl.
    destruct l as [|x l]; [done|].
    specialize (Hg (key x)). rewrite lookup_total_empty in Hg.
    rewrite filter_cons_True in Hg by done. done.
  - rewrite map_to_list_insert by done. simpl.
    pose proof (Hg k) as Hv. rewrite lookup_total_insert_eq in Hv.
    rewrite (IH (filter (λ x, key x ≠ k) l)).
    + rewrite Hv, <- fmap_app. apply fmap_Permutation.
      apply filter_app_complement.
    + intros s. destruct (decide (s = k)) as [->|Hne].
      * rewrite lookup_total_alt, Hk. simpl.
        rewrite list_filter_filter, filter_none; [done|].
        by intros x [? ?].
      * specialize (Hg s). rewrite lookup_total_insert_ne in Hg by done.
        rewrite Hg, list_filter_filter_l; [done|].
        by intros x ->.
Qed.

Lemma filter_zip_fst {A B} (P : A → Prop) (Q : A * B → Prop)
    `{!∀ x, Decision (P x), !∀ io, Decision (Q io)} :
  (∀ io, Q io ↔ P io.1) →
  ∀ (l : list A) (k : list B), length l = length k →
  (filter Q (zip l k)).*1 = filter P l.
Proof.
  intros HPQ. induction l as [|x l IH]; intros [|y k] Hlen; simpl in *;
    try done.
  destruct (decide (P x)) as [HP|HP].
  - rewrite !filter_cons_True by (done || by apply HPQ). simpl.
    rewrite IH; auto.
  - rewrite !filter_cons_False by (done || by rewrite HPQ).
    rewrite IH; auto.
Qed.

Lemma group_loop_spec in_path out_path w0 :
  length in_path = length out_path →
  (∀ p, p ∈ in_path → is_Some (files w0 !! p)) →
  ∀ m n g w, n + m = length in_path → files w = files w0 →
  (∀ s, g.1 !!! s
        = (filter (λ io, key_of (files w0) io.1 = s)
             (take n (zip in_path out_path))).*1
      ∧ g.2 !!! s
        = (filter (λ io, key_of (files w0) io.1 = s)
             (take n (zip in_path out_path))).*2) →
  ∃ g' w', group_loop in_path out_path (seq n m) g w = (Ret g', w')
    ∧ files w' = files w0
    ∧ ∀ s, g'.1 !!! s
           = (filter (λ io, key_of (files w0) io.1 = s)
                (zip in_path out_path)).*1
         ∧ g'.2 !!! s
           = (filter (λ io, key_of (files w0) io.1 = s)
                (zip in_path out_path)).*2.
Proof.
  intros Hlen Hfiles. induction m as [|m IH]; intros n g w Hn Hw Hg; simpl.
  { exists g, w. split_and!; try done. intros s.
    rewrite take_ge in Hg; [apply Hg|]. rewrite length_zip. lia. }
  unfold bind.
  destruct (lookup_lt_is_Some_2 in_path n) as [p Hp]; [lia|].
  destruct (lookup_lt_is_Some_2 out_path n) as [q Hq]; [lia|].
  unfold getitem. rewrite Hp, Hq. simpl.
  destruct (Hfiles p) as [img Himg]; [by eapply list_elem_of_lookup_2|].
  unfold imread. rewrite Hw, Himg.
  apply IH; [lia|done|]. intros s. simpl.
  assert (take (S n) (zip in_path out_path)
          = (take n (zip in_path out_path) ++ [(p, q)])%list) as ->.
  { apply take_S_r. apply lookup_zip_with_Some. eauto. }
  rewrite filter_app, !fmap_app. unfold dict_append.
  assert (key_of (files w0) p = shape_key (shape img)) as Hkey
    by (unfold key_of; by rewrite Himg).
  destruct (Hg (shape_key (shape img))) as [Hg1 Hg2].
  destruct (Hg s) as [Hs1 Hs2].
  destruct (decide (s = shape_key (shape img))) as [->|Hne].
  - rewrite !lookup_total_insert_eq, Hg1, Hg2.
    by rewrite filter_cons_True by done.
  - rewrite !lookup_total_insert_ne, Hs1, Hs2 by done.
    rewrite filter_cons_False by (simpl; congruence).
    by rewrite !app_nil_r.
Qed.

(** C7. For aligned lists of readable inputs, the grouping loop of
    [eval_mul_dims] returns, leaves the files as they are and builds
    groups keyed by shape, distinct shapes having distinct keys.  The
    group of a key is exactly the pairs of input and output of that key,
    in their original order: the input and output lists of a group have
    the same length and are aligned, and the groups together hold every
    input and every output once.  [eval_mul_dims] then calls [eval] on the
    input and output lists of each key of the dictionary. *)
Theorem eval_mul_dims_groups_partition in_path out_path model_path device
    batch_size mask blend w :
  length in_path = length out_path →
  (∀ p, p ∈ in_path → is_Some (files w !! p)) →
  ∃ g w',
    group_loop in_path out_path (seq 0 (length in_path)) (∅, ∅) w
    = (Ret g, w')
    ∧ eval_mul_dims in_path out_path model_path device batch_size mask
        blend w
      = eval_groups (map_to_list g.1).*1 g model_path device batch_size mask
          blend w'
    ∧ files w' = files w
    ∧ (∀ s t, shape_key s = shape_key t → s = t)
    ∧ (∀ s, zip (g.1 !!! s) (g.2 !!! s)
            = filter (λ io, key_of (files w) io.1 = s) (zip in_path out_path)
          ∧ length (g.1 !!! s) = length (g.2 !!! s)
          ∧ g.1 !!! s = filter (λ p, key_of (files w) p = s) in_path)
    ∧ NoDup (map_to_list g.1).*1
    ∧ mjoin (map_to_list g.1).*2 ≡ₚ in_path
    ∧ mjoin (map_to_list g.2).*2 ≡ₚ out_path.
Proof.
  intros Hlen Hfiles.
  destruct (group_loop_spec in_path out_path w Hlen Hfiles
              (length in_path) 0 (∅, ∅) w) as (g & w' & Hrun & Hw & Hg);
    [done..| |].
  { intros s. simpl. by rewrite !lookup_total_empty. }
  exists g, w'. split_and!; try done.
  - unfold eval_mul_dims, bind. by rewrite Hrun.
  - apply shape_key_inj.
  - intros s. destruct (Hg s) as [-> ->]. split_and!.
    + apply zip_fst_snd.
    + by rewrite !length_fmap.
    + by apply filter_zip_fst.
  - apply NoDup_fst_map_to_list.
  - rewrite (groups_partition (λ io, key_of (files w) io.1) fst g.1
               (zip in_path out_path)) by (intros s; apply Hg).
    rewrite fst_zip; [done|lia].
  - rewrite (groups_partition (λ io, key_of (files w) io.1) snd g.2
               (zip in_path out_path)) by (intros s; apply Hg).
    rewrite snd_zip; [done|lia].
Qed.


(** ** Runs on the same inputs *)


Lemma det_mono {A} R R' (m : M A) :
  R ⊆ R' → deterministic_on R m → deterministic_on R' m.
Proof. intros HR Hm D w1 w2 HD. apply Hm. intros p Hp. apply HD, HR, Hp. Qed.



















(** Every group of the grouping loop is made of input paths. *)
Lemma group_loop_subseteq in_path out_path : ∀ iters g w g' w',
  (∀ s, g.1 !!! s ⊆ in_path) →
  group_loop in_path out_path iters g w = (Ret g', w') →
  ∀ s, g'.1 !!! s ⊆ in_path.
Proof.
  induction iters as [|i rest IH]; intros g w g' w' Hg; simpl.
  { unfold ret. by intros [= <- <-]. }
  unfold bind, getitem.
  destruct (in_path !! i) as [p|] eqn:Hp; simpl; [|done].
  destruct (out_path !! i) as [q|]; simpl; [|done].
  unfold imread. destruct (files w !! p) as [img|]; [|done].
  apply IH. intros s. simpl. unfold dict_append.
  destruct (decide (s = shape_key (shape img))) as [->|Hne].
  - rewrite lookup_total_insert_eq. intros x [Hx|Hx]%elem_of_app.
    + by eapply Hg.
    + apply list_elem_of_singleton in Hx as ->.
      by eapply list_elem_of_lookup_2.
  - rewrite lookup_total_insert_ne by done. apply Hg.
Qed.






(** * Further properties of the code *)

(** ** What a call reads and writes *)

Lemma fp_mono {A} R R' P P' (m : M A) :
  R ⊆ R' → P ⊆ P' → footprint R P m → footprint R' P' m.
Proof.
  intros HR HP Hm w. destruct (Hm w) as (es & Ht & Hl & Hs & Hd & Hf).
  exists es. split_and!; try done; by etrans.
Qed.

(** A call that reads no image and writes none. *)
Lemma fp_quiet {A} R P (m : M A) :
  (∀ w, ∃ es, loaded es = [] ∧ saved es = []
     ∧ (m w).2 = World (files w) (dirs w) (trace w ++ es)) →
  footprint R P m.
Proof.
  intros Hm w. destruct (Hm w) as (es & Hl & Hs & ->). exists es.
  rewrite Hl, Hs. split_and!; try done; apply list_subseteq_nil.
Qed.

Lemma fp_ret {A} R P (a : A) : footprint R P (ret a).
Proof.
  apply fp_quiet. intros [fs ds tr]. exists []. simpl.
  by rewrite app_nil_r.
Qed.

Lemma fp_lift {A} R P (r : result A) : footprint R P (lift r).
Proof.
  apply fp_quiet. intros [fs ds tr]. exists []. destruct r; simpl;
    by rewrite app_nil_r.
Qed.

Lemma fp_bind_ret {A B} R P (m : M A) (k : A → M B) :
  footprint R P m →
  (∀ a, (∃ w, (m w).1 = Ret a) → footprint R P (k a)) →
  footprint R P (bind m k).
Proof.
  intros Hm Hk w. destruct (Hm w) as (es1 & Ht1 & Hl1 & Hs1 & Hd1 & Hf1).
  unfold bind. destruct (m w) as [[a|e|] w1] eqn:Hmw; simpl in *;
    try by exists es1.
  destruct (Hk a (ex_intro _ w (f_equal fst Hmw)) w1)
    as (es2 & Ht2 & Hl2 & Hs2 & Hd2 & Hf2).
  exists (es1 ++ es2)%list. split_and!.
  - rewrite Ht2, Ht1. by rewrite app_assoc.
  - rewrite loaded_app. intros p [?|?]%elem_of_app; auto.
  - rewrite saved_app. intros p [?|?]%elem_of_app; auto.
  - by rewrite Hd2.
  - intros p Hp. rewrite saved_app, not_elem_of_app in Hp.
    destruct Hp as [Hp1 Hp2]. by rewrite Hf2, Hf1.
Qed.

Lemma fp_bind {A B} R P (m : M A) (k : A → M B) :
  footprint R P m → (∀ a, footprint R P (k a)) → footprint R P (bind m k).
Proof. intros Hm Hk. apply fp_bind_ret; [done|]. intros a _. apply Hk. Qed.

Lemma fp_try_except {A} R P (m h : M A) E :
  footprint R P m → footprint R P h → footprint R P (try_except m E h).
Proof.
  intros Hm Hh w. destruct (Hm w) as (es1 & Ht1 & Hl1 & Hs1 & Hd1 & Hf1).
  unfold try_except. destruct (m w) as [[a|e|] w1]; simpl in *;
    try by exists es1.
  case_decide; [|by exists es1].
  destruct (Hh w1) as (es2 & Ht2 & Hl2 & Hs2 & Hd2 & Hf2).
  exists (es1 ++ es2)%list. split_and!.
  - rewrite Ht2, Ht1. by rewrite app_assoc.
  - rewrite loaded_app. intros p [?|?]%elem_of_app; auto.
  - rewrite saved_app. intros p [?|?]%elem_of_app; auto.
  - by rewrite Hd2.
  - intros p Hp. rewrite saved_app, not_elem_of_app in Hp.
    destruct Hp as [Hp1 Hp2]. by rewrite Hf2, Hf1.
Qed.

Lemma fp_imread R P p : p ∈ R → footprint R P (imread p).
Proof.
  intros Hp w. unfold imread. destruct (files w !! p); simpl.
  - exists [EvRead p]. split_and!; try done.
    + by intros q ->%list_elem_of_singleton.
    + apply list_subseteq_nil.
  - exists []. rewrite app_nil_r. split_and!; try done;
      apply list_subseteq_nil.
Qed.

Lemma fp_read_img R P p : p ∈ R → footprint R P (read_img p).
Proof.
  intros Hp. unfold read_img. apply fp_bind; [by apply fp_imread|].
  intros img. case_match; apply fp_ret.
Qed.

Lemma fp_imsave R P p img : p ∈ P → footprint R P (imsave encode p img).
Proof.
  intros Hp w. unfold imsave. simpl. exists [EvSave p img].
  split_and!; try done.
  - apply list_subseteq_nil.
  - by intros q ->%list_elem_of_singleton.
  - intros q Hq. simpl in Hq. apply not_elem_of_cons in Hq as [Hq _].
    by apply lookup_insert_ne.
Qed.

Lemma fp_tf_session R P dev : footprint R P (tf_session dev).
Proof. apply fp_quiet. intros w. by exists [EvSession dev]. Qed.

Lemma fp_tf_placeholder R P b : footprint R P (tf_placeholder b).
Proof.
  unfold tf_placeholder. case_match; [|apply fp_ret].
  apply (fp_lift R P (Err ValueError)).
Qed.

Lemma fp_saver_restore R P sess model_path :
  footprint R P (saver_restore sess model_path).
Proof.
  apply fp_quiet. intros [fs ds tr]. unfold saver_restore.
  destruct (has_checkpoint model_path).
  - by exists [EvRestore (sess_device sess) model_path].
  - exists []. simpl. by rewrite app_nil_r.
Qed.

Lemma fp_sess_run R P sess model_path img_shape x :
  footprint R P (sess_run sess model_path img_shape x).
Proof.
  apply fp_quiet. intros [fs ds tr]. unfold sess_run.
  destruct (exhausted _ _ _).
  - exists []. simpl. by rewrite app_nil_r.
  - by exists [EvRun (sess_device sess) x].
Qed.

Lemma fp_fill_batch R P sess model_path img_shape : ∀ ins j x _preds,
  ins ⊆ R → footprint R P (fill_batch sess model_path img_shape j ins x _preds).
Proof.
  induction ins as [|path_in rest IH]; intros j x _preds HR; simpl.
  { apply fp_ret. }
  apply fp_bind; [apply fp_read_img, HR; by left|]. intros img.
  apply fp_bind; [apply fp_lift|]. intros x'.
  apply fp_bind; [apply fp_sess_run|]. intros ps.
  apply IH. intros p Hp. apply HR. by right.
Qed.

Lemma fp_save_batch R P x _preds i mask blend : ∀ outs j,
  outs ⊆ P → footprint R P (save_batch x _preds i mask blend j outs).
Proof.
  induction outs as [|path_out rest IH]; intros j HP; simpl.
  { apply fp_ret. }
  apply fp_bind; [apply fp_lift|]. intros img.
  apply fp_bind; [apply fp_imsave, HP; by left|]. intros _.
  apply IH. intros p Hp. apply HP. by right.
Qed.

Lemma fp_batches R P sess data_in paths_out model_path img_shape batch_size
    mask blend : ∀ iters _preds,
  data_in ⊆ R → paths_out ⊆ P →
  footprint R P (batches sess data_in paths_out model_path img_shape
                   batch_size mask blend iters _preds).
Proof.
  induction iters as [|i rest IH]; intros _preds HR HP; simpl.
  { apply fp_ret. }
  apply fp_bind; [|intros ps; by apply IH].
  unfold batch_step. apply fp_bind.
  - apply fp_fill_batch. etrans; [apply subseteq_take|].
    etrans; [apply subseteq_drop|done].
  - intros filled. apply fp_bind; [|intros _; apply fp_ret].
    apply fp_save_batch. etrans; [apply subseteq_take|].
    etrans; [apply subseteq_drop|done].
Qed.

Lemma fp_transfer R P (e : eval_t) sess data_in paths_out model_path device
    batch_size mask blend :
  (∀ d p, d ⊆ R → p ⊆ P →
     footprint R P (e d p model_path device batch_size mask blend)) →
  data_in ⊆ R → paths_out ⊆ P →
  footprint R P (transfer e sess data_in paths_out model_path device
                   batch_size mask blend).
Proof.
  intros He HR HP. unfold transfer.
  apply fp_bind_ret; [apply fp_lift|]. intros first [w0 Hfirst].
  assert (first ∈ R) as Hin.
  { apply HR. unfold lift, getitem in Hfirst.
    destruct (data_in !! 0) eqn:Hl; simpl in Hfirst; [|done].
    injection Hfirst as <-. by eapply list_elem_of_lookup_2. }
  apply fp_bind; [by apply fp_read_img|]. intros img.
  apply fp_bind; [apply fp_tf_placeholder|]. intros _.
  apply fp_bind; [apply fp_saver_restore|]. intros _.
  apply fp_bind; [apply fp_lift|]. intros n.
  apply fp_bind; [by apply fp_batches|]. intros _.
  case_match; [|apply fp_ret].
  apply He; (etrans; [apply subseteq_drop|done]).
Qed.

Lemma fp_eval_fuel R P f : ∀ data_in paths_out model_path device batch_size
    mask blend,
  data_in ⊆ R → paths_out ⊆ P →
  footprint R P (eval_fuel f data_in paths_out model_path device batch_size
                   mask blend).
Proof.
  induction f as [|f IH]; intros data_in paths_out model_path device
    batch_size mask blend HR HP; simpl.
  { apply fp_quiet. intros [fs ds tr]. exists []. simpl.
    by rewrite app_nil_r. }
  apply fp_try_except.
  - apply fp_bind; [apply fp_tf_session|]. intros sess.
    apply fp_transfer; [|done..]. intros d p Hd Hp. by apply IH.
  - apply fp_bind; [apply fp_tf_session|]. intros sess.
    apply fp_transfer; [|done..]. intros d p Hd Hp. by apply IH.
Qed.

(** X1. Whatever its outcome, [eval] reads image files among [data_in]
    only and writes image files among [paths_out] only; it creates no
    directory and leaves every file outside [paths_out] as it was. *)
Theorem eval_footprint data_in paths_out model_path device batch_size mask
    blend w :
  let r := eval data_in paths_out model_path device batch_size mask blend w in
  ∃ es, trace r.2 = (trace w ++ es)%list
    ∧ loaded es ⊆ data_in ∧ saved es ⊆ paths_out
    ∧ dirs r.2 = dirs w
    ∧ ∀ p, p ∉ paths_out → files r.2 !! p = files w !! p.
Proof.
  destruct (fp_eval_fuel data_in paths_out (S (length paths_out)) data_in
              paths_out model_path device batch_size mask blend
              (reflexivity _) (reflexivity _) w)
    as (es & Ht & Hl & Hs & Hd & Hf).
  exists es. split_and!; try done.
  intros p Hp. apply Hf. intros Hin. by apply Hp, Hs.
Qed.


(** Every group of outputs is made of output paths. *)
Lemma group_loop_outputs in_path out_path : ∀ iters g w g' w',
  (∀ s, g.2 !!! s ⊆ out_path) →
  group_loop in_path out_path iters g w = (Ret g', w') →
  ∀ s, g'.2 !!! s ⊆ out_path.
Proof.
  induction iters as [|i rest IH]; intros g w g' w' Hg; simpl.
  { unfold ret. by intros [= <- <-]. }
  unfold bind, getitem.
  destruct (in_path !! i) as [p|]; simpl; [|done].
  destruct (out_path !! i) as [q|] eqn:Hq; simpl; [|done].
  unfold imread. destruct (files w !! p) as [img|]; [|done].
  apply IH. intros s. simpl. unfold dict_append.
  destruct (decide (s = shape_key (shape img))) as [->|Hne].
  - rewrite lookup_total_insert_eq. intros x [Hx|Hx]%elem_of_app.
    + by eapply Hg.
    + apply list_elem_of_singleton in Hx as ->.
      by eapply list_elem_of_lookup_2.
  - rewrite lookup_total_insert_ne by done. apply Hg.
Qed.

Lemma fp_group_loop R P in_path out_path : ∀ iters g,
  in_path ⊆ R → footprint R P (group_loop in_path out_path iters g).
Proof.
  induction iters as [|i rest IH]; intros g HR; simpl.
  { apply fp_ret. }
  apply fp_bind_ret; [apply fp_lift|]. intros p [w0 Hp].
  assert (p ∈ R) as Hin.
  { apply HR. unfold lift, getitem in Hp.
    destruct (in_path !! i) eqn:Hl; simpl in Hp; [|done].
    injection Hp as <-. by eapply list_elem_of_lookup_2. }
  apply fp_bind; [apply fp_lift|]. intros q.
  apply fp_bind; [by apply fp_imread|]. intros img. by apply IH.
Qed.

Lemma fp_eval_groups R P g model_path device batch_size mask blend :
  (∀ s, g.1 !!! s ⊆ R) → (∀ s, g.2 !!! s ⊆ P) → ∀ keys,
  footprint R P (eval_groups keys g model_path device batch_size mask blend).
Proof.
  intros Hg1 Hg2. induction keys as [|s rest IH]; simpl.
  { apply fp_ret. }
  apply fp_bind; [|by intros _]. by apply fp_eval_fuel.
Qed.

(** X2. Whatever its outcome, [eval_mul_dims] reads image files among
    [in_path] only and writes image files among [out_path] only; it
    creates no directory and leaves every file outside [out_path] as it
    was. *)
Theorem eval_mul_dims_footprint in_path out_path model_path device batch_size
    mask blend w :
  let r := eval_mul_dims in_path out_path model_path device batch_size mask
             blend w in
  ∃ es, trace r.2 = (trace w ++ es)%list
    ∧ loaded es ⊆ in_path ∧ saved es ⊆ out_path
    ∧ dirs r.2 = dirs w
    ∧ ∀ p, p ∉ out_path → files r.2 !! p = files w !! p.
Proof.
  assert (footprint in_path out_path
            (eval_mul_dims in_path out_path model_path device batch_size mask
               blend)) as Hfp.
  { unfold eval_mul_dims. apply fp_bind_ret; [by apply fp_group_loop|].
    intros g [w0 Hg].
    destruct (group_loop _ _ _ _ w0) as [o w'] eqn:Hrun. simpl in Hg. subst o.
    apply fp_eval_groups.
    - eapply group_loop_subseteq; [|exact Hrun].
      intros s. simpl. rewrite lookup_total_empty. apply list_subseteq_nil.
    - eapply group_loop_outputs; [|exact Hrun].
      intros s. simpl. rewrite lookup_total_empty. apply list_subseteq_nil. }
  destruct (Hfp w) as (es & Ht & Hl & Hs & Hd & Hf).
  exists es. split_and!; try done.
  intros p Hp. apply Hf. intros Hin. by apply Hp, Hs.
Qed.


(** ** Degenerate calls *)

Lemma opened_app es1 es2 :
  opened (es1 ++ es2) = (opened es1 ++ opened es2)%list.
Proof. apply omap_app. Qed.

Lemma forward_runs_app es1 es2 :
  forward_runs (es1 ++ es2) = forward_runs es1 + forward_runs es2.
Proof. unfold forward_runs. by rewrite omap_app, length_app. Qed.

(** With a batch size that is not positive [transfer] stops before its
    first batch. *)
Lemma transfer_nonpositive (e : eval_t) sess data_in paths_out model_path
    device batch_size mask blend w :
  (batch_size ≤ 0)%Z →
  ∃ err es,
    transfer e sess data_in paths_out model_path device batch_size mask
      blend w = (Raise err, World (files w) (dirs w) (trace w ++ es))
    ∧ err ≠ ResourceExhaustedError
    ∧ opened es = [] ∧ forward_runs es = 0 ∧ saved es = []
    ∧ (∀ first, data_in !! 0 = Some first → is_Some (files w !! first) →
         ((batch_size < 0)%Z → err = ValueError)
         ∧ (batch_size = 0%Z → has_checkpoint model_path = true →
              err = ZeroDivisionError)).
Proof.
  intros Hb. unfold transfer, bind, getitem.
  destruct (data_in !! 0) as [first|] eqn:Hfirst; simpl.
  2:{ exists IndexError, []. destruct w. simpl. rewrite app_nil_r.
      split_and!; try done. }
  rewrite read_img_decoded. unfold decoded.
  destruct (files w !! first) as [img0|] eqn:Himg; simpl.
  2:{ exists IOError, []. destruct w. simpl. rewrite app_nil_r.
      split_and!; try done. intros first' [= <-] [? ?]. simpl in *.
      congruence. }
  unfold tf_placeholder.
  destruct (Z.ltb_spec batch_size 0) as [Hneg|Hnn]; simpl.
  { exists ValueError, [EvRead first]. split_and!; try done.
    intros first' _ _. split; [done|lia]. }
  assert (batch_size = 0%Z) as -> by lia.
  unfold saver_restore. destruct (has_checkpoint model_path); simpl.
  - exists ZeroDivisionError,
      [EvRead first; EvRestore (sess_device sess) model_path].
    split_and!; try done;
      try (intros first' _ _; split; [lia|done]).
    unfold log. simpl. by rewrite <- app_assoc.
  - exists NotFoundError, [EvRead first].
    split_and!; try done; try (intros first' _ _; split; [lia|done]).
Qed.

(** X3. With a batch size that is not positive, or with no output path,
    [eval] raises an exception other than a resource exhaustion: it opens
    one session on the configured device, never falls back to the CPU,
    runs the network on nothing, writes nothing and leaves the files as
    they are.  When the first input is readable the exception is a
    [ValueError] for a negative batch size and, the checkpoint being
    there, a [ZeroDivisionError] for a clamped batch size of zero. *)
Theorem eval_nonpositive_batch_size data_in paths_out model_path device
    batch_size mask blend w :
  (batch_size ≤ 0)%Z ∨ paths_out = [] →
  let b := Z.min (Z.of_nat (length paths_out)) batch_size in
  let r := eval data_in paths_out model_path device batch_size mask blend w in
  ∃ err es,
    r.1 = Raise err ∧ err ≠ ResourceExhaustedError
    ∧ trace r.2 = (trace w ++ es)%list
    ∧ opened es = [device] ∧ forward_runs es = 0 ∧ saved es = []
    ∧ files r.2 = files w
    ∧ (∀ first, data_in !! 0 = Some first → is_Some (files w !! first) →
         ((b < 0)%Z → err = ValueError)
         ∧ (b = 0%Z → has_checkpoint model_path = true →
              err = ZeroDivisionError)).
Proof.
  intros Hb b r.
  assert (b ≤ 0)%Z as Hb'.
  { destruct Hb as [?| ->]; [lia|]. unfold b. simpl. lia. }
  subst r. rewrite eval_unfold. fold b.
  unfold try_except, bind, tf_session.
  destruct (transfer_nonpositive eval (Session device) data_in paths_out
              model_path device b mask blend (log (EvSession device) w) Hb')
    as (err & es & -> & Herr & Ho & Hr & Hs & Hspec).
  rewrite decide_False by done.
  exists err, (EvSession device :: es). simpl. split_and!; try done.
  - by rewrite <- app_assoc.
  - by rewrite Ho.
Qed.

(** X4. On an empty list of inputs [eval] raises [IndexError] as soon as
    its session is open, whatever the outputs and the batch size, while
    [eval_mul_dims] returns at once and leaves the state as it is. *)
Theorem empty_input paths_out model_path device batch_size mask blend w :
  eval [] paths_out model_path device batch_size mask blend w
  = (Raise IndexError, log (EvSession device) w)
  ∧ eval_mul_dims [] paths_out model_path device batch_size mask blend w
    = (Ret tt, w).
Proof.
  split.
  - rewrite eval_unfold. unfold try_except, bind, tf_session, transfer.
    by simpl.
  - unfold eval_mul_dims, bind. simpl. by rewrite map_to_list_empty.
Qed.


(** ** Inputs and outputs that do not match *)

(** As long as inputs and outputs are there the grouping loop reads on. *)
Lemma group_loop_reads in_path out_path : ∀ m n g w rest,
  (∀ i, n ≤ i < n + m →
     ∃ p q, in_path !! i = Some p ∧ out_path !! i = Some q
       ∧ is_Some (files w !! p)) →
  ∃ g', group_loop in_path out_path (seq n m ++ rest) g w
        = group_loop in_path out_path rest g'
            (World (files w) (dirs w)
               (trace w ++ (EvRead <$> take m (drop n in_path)))).
Proof.
  induction m as [|m IH]; intros n g w rest Hok; simpl.
  { exists g. destruct w. simpl. by rewrite app_nil_r. }
  destruct (Hok n) as (p & q & Hp & Hq & [img Himg]); [lia|].
  unfold bind at 1, getitem. rewrite Hp. simpl.
  unfold bind at 1. rewrite Hq. simpl.
  unfold bind at 1, imread. rewrite Himg.
  destruct (IH (S n)
              (dict_append (shape_key (shape img)) p g.1,
               dict_append (shape_key (shape img)) q g.2)
              (log (EvRead p) w) rest) as (g' & ->).
  { intros i Hi. apply Hok. lia. }
  exists g'. f_equal. simpl. f_equal.
  rewrite (drop_S _ _ _ Hp). simpl. by rewrite <- app_assoc.
Qed.

(** X5. With fewer outputs than inputs, the inputs before the first one
    without an output being readable, [eval_mul_dims] reads those inputs
    and raises [IndexError]: no group is evaluated, no session opened, no
    file written. *)
Theorem eval_mul_dims_short_outputs in_path out_path model_path device
    batch_size mask blend w :
  length out_path < length in_path →
  (∀ i p, i < length out_path → in_path !! i = Some p →
          is_Some (files w !! p)) →
  eval_mul_dims in_path out_path model_path device batch_size mask blend w
  = (Raise IndexError,
     World (files w) (dirs w)
       (trace w ++ (EvRead <$> take (length out_path) in_path))).
Proof.
  intros Hlen Hfiles. unfold eval_mul_dims, bind.
  replace (length in_path)
    with (length out_path + S (length in_path - S (length out_path)))
    by lia.
  rewrite seq_app.
  destruct (group_loop_reads in_path out_path (length out_path) 0 (∅, ∅) w
              (seq (0 + length out_path)
                 (S (length in_path - S (length out_path)))))
    as (g' & ->).
  { intros i Hi.
    destruct (lookup_lt_is_Some_2 in_path i) as [p Hp]; [lia|].
    destruct (lookup_lt_is_Some_2 out_path i) as [q Hq]; [lia|].
    exists p, q. split_and!; [done..|]. apply (Hfiles i); [lia|done]. }
  rewrite drop_0. simpl. unfold bind, getitem.
  destruct (lookup_lt_is_Some_2 in_path (length out_path)) as [p ->]; [lia|].
  simpl. by rewrite (lookup_ge_None_2 out_path).
Qed.

(** X6. When the input at index [k] is missing, the inputs before it being
    readable and paired with outputs, [eval_mul_dims] reads those and
    raises [IOError]: no group is evaluated, no session opened, no file
    written. *)
Theorem eval_mul_dims_missing_input in_path out_path model_path device
    batch_size mask blend w k missing :
  in_path !! k = Some missing → files w !! missing = None →
  k < length out_path →
  (∀ i p, i < k → in_path !! i = Some p → is_Some (files w !! p)) →
  eval_mul_dims in_path out_path model_path device batch_size mask blend w
  = (Raise IOError,
     World (files w) (dirs w) (trace w ++ (EvRead <$> take k in_path))).
Proof.
  intros Hk Hmissing Hout Hfiles. unfold eval_mul_dims, bind.
  assert (k < length in_path) as Hlt by (by eapply lookup_lt_Some).
  replace (length in_path) with (k + S (length in_path - S k)) by lia.
  rewrite seq_app.
  destruct (group_loop_reads in_path out_path k 0 (∅, ∅) w
              (seq (0 + k) (S (length in_path - S k))))
    as (g' & ->).
  { intros i Hi.
    destruct (lookup_lt_is_Some_2 in_path i) as [p Hp]; [lia|].
    destruct (lookup_lt_is_Some_2 out_path i) as [q Hq]; [lia|].
    exists p, q. split_and!; [done..|]. apply (Hfiles i); [lia|done]. }
  rewrite drop_0. simpl. unfold bind, getitem. rewrite Hk. simpl.
  destruct (lookup_lt_is_Some_2 out_path k) as [q ->]; [lia|].
  simpl. unfold imread. simpl. by rewrite Hmissing.
Qed.

Lemma group_loop_take in_path out_path n : ∀ iters g w,
  Forall (λ i, i < n) iters →
  group_loop in_path (take n out_path) iters g w
  = group_loop in_path out_path iters g w.
Proof.
  induction iters as [|i rest IH]; intros g w Hlt; simpl; [done|].
  apply Forall_cons in Hlt as [Hi Hrest].
  unfold bind, getitem. rewrite lookup_take_lt by done.
  destruct (in_path !! i); simpl; [|done].
  destruct (out_path !! i); simpl; [|done].
  destruct (imread _ w) as [[img|e|] w1]; try done. by apply IH.
Qed.

(** X7. The outputs beyond the number of inputs are never used:
    [eval_mul_dims] does the same with and without them. *)
Theorem eval_mul_dims_extra_outputs in_path out_path model_path device
    batch_size mask blend w :
  eval_mul_dims in_path out_path model_path device batch_size mask blend w
  = eval_mul_dims in_path (take (length in_path) out_path) model_path device
      batch_size mask blend w.
Proof.
  unfold eval_mul_dims, bind. rewrite group_loop_take; [done|].
  apply Forall_seq. intros; lia.
Qed.


(** ** How often the network runs *)

Lemma fill_batch_counts sess model_path img_shape : ∀ ins j x _preds w,
  let r := fill_batch sess model_path img_shape j ins x _preds w in
  ∃ es, trace r.2 = (trace w ++ es)%list ∧ opened es = []
    ∧ (is_ret r.1 = true → forward_runs es = length ins ∧ loaded es = ins).
Proof.
  induction ins as [|path_in rest IH]; intros j x _preds w; simpl.
  { exists []. by rewrite app_nil_r. }
  unfold bind. rewrite read_img_decoded.
  destruct (decoded (files w) path_in) as [img|]; simpl;
    [|exists []; by rewrite app_nil_r].
  destruct (setitem x j img) as [x'|e]; simpl;
    [|by exists [EvRead path_in]].
  unfold sess_run. destruct (exhausted _ _ _); simpl;
    [by exists [EvRead path_in]|].
  destruct (IH (S j) x' (Some (net model_path (sess_device sess) x'))
              (log (EvRun (sess_device sess) x') (log (EvRead path_in) w)))
    as (es & Ht & Ho & Hret).
  exists (EvRead path_in :: EvRun (sess_device sess) x' :: es).
  split_and!.
  - rewrite Ht. simpl. by rewrite <- !app_assoc.
  - done.
  - intros Hr. destruct (Hret Hr) as [Hruns Hl]. simpl.
    rewrite Hl. split; [|done].
    change (S (forward_runs es) = S (length rest)). by rewrite Hruns.
Qed.

Lemma save_batch_counts x _preds i mask blend : ∀ outs j w,
  let r := save_batch x _preds i mask blend j outs w in
  ∃ es, trace r.2 = (trace w ++ es)%list ∧ opened es = []
    ∧ forward_runs es = 0 ∧ loaded es = [].
Proof.
  induction outs as [|path_out rest IH]; intros j w; simpl.
  { exists []. by rewrite app_nil_r. }
  unfold bind. destruct (postprocess x _preds i j mask blend) as [img|e];
    simpl; [|exists []; by rewrite app_nil_r].
  destruct (IH (S j) (World (<[path_out:=encode img]> (files w)) (dirs w)
                        (trace w ++ [EvSave path_out img])))
    as (es & Ht & Ho & Hr & Hl).
  exists (EvSave path_out img :: es). split_and!; try done.
  rewrite Ht. simpl. by rewrite <- app_assoc.
Qed.

Lemma batch_step_counts sess data_in paths_out model_path img_shape
    batch_size mask blend i _preds w :
  let r := batch_step sess data_in paths_out model_path img_shape batch_size
             mask blend i _preds w in
  ∃ es, trace r.2 = (trace w ++ es)%list ∧ opened es = []
    ∧ (is_ret r.1 = true →
       loaded es = take batch_size (drop (i * batch_size) data_in)
       ∧ forward_runs es = length (loaded es)).
Proof.
  unfold batch_step, bind.
  destruct (fill_batch_counts sess model_path img_shape
              (take batch_size (drop (i * batch_size) data_in)) 0
              (replicate batch_size (np_zeros img_shape)) _preds w)
    as (es1 & Ht1 & Ho1 & Hret1).
  destruct (fill_batch _ _ _ _ _ _ _ w) as [[[x ps]|e|] w1]; simpl in *;
    try by exists es1.
  destruct (Hret1 eq_refl) as [Hr1 Hl1].
  destruct (save_batch_counts x ps i mask blend
              (take batch_size (drop (i * batch_size) paths_out)) 0 w1)
    as (es2 & Ht2 & Ho2 & Hr2 & Hl2).
  exists (es1 ++ es2)%list.
  assert (trace (save_batch x ps i mask blend 0
                   (take batch_size (drop (i * batch_size) paths_out)) w1).2
          = (trace w ++ es1 ++ es2)%list) as Ht.
  { rewrite Ht2, Ht1. by rewrite <- app_assoc. }
  assert (opened (es1 ++ es2) = []) as Ho
    by (by rewrite opened_app, Ho1, Ho2).
  assert (loaded (es1 ++ es2)
          = take batch_size (drop (i * batch_size) data_in)) as Hl
    by (by rewrite loaded_app, Hl1, Hl2, app_nil_r).
  assert (forward_runs (es1 ++ es2) = length (loaded (es1 ++ es2))) as Hr
    by (rewrite forward_runs_app, Hr1, Hr2, Hl; lia).
  destruct (save_batch _ _ _ _ _ _ _ w1) as [[u|e|] w2]; simpl in *; done.
Qed.

Lemma batches_counts sess data_in paths_out model_path img_shape batch_size
    mask blend : ∀ n a _preds w,
  let r := batches sess data_in paths_out model_path img_shape batch_size
             mask blend (seq a n) _preds w in
  ∃ es, trace r.2 = (trace w ++ es)%list ∧ opened es = []
    ∧ (is_ret r.1 = true →
       loaded es = take (n * batch_size) (drop (a * batch_size) data_in)
       ∧ forward_runs es = length (loaded es)).
Proof.
  induction n as [|n IH]; intros a _preds w; simpl.
  { exists []. by rewrite app_nil_r. }
  unfold bind.
  destruct (batch_step_counts sess data_in paths_out model_path img_shape
              batch_size mask blend a _preds w) as (es1 & Ht1 & Ho1 & Hret1).
  destruct (batch_step _ _ _ _ _ _ _ _ _ _ w) as [[ps|e|] w1]; simpl in *;
    try by exists es1.
  destruct (Hret1 eq_refl) as [Hl1 Hr1].
  destruct (IH (S a) ps w1) as (es3 & Ht3 & Ho3 & Hret3).
  exists (es1 ++ es3)%list. split_and!.
  - rewrite Ht3, Ht1. by rewrite <- !app_assoc.
  - by rewrite !opened_app, Ho1, Ho3.
  - intros Hr. destruct (Hret3 Hr) as [Hl3 Hr3].
    assert (loaded (es1 ++ es3)
            = take (batch_size + n * batch_size)
                (drop (a * batch_size) data_in)) as Hl.
    { rewrite !loaded_app, Hl1, Hl3.
      replace (S a * batch_size) with (a * batch_size + batch_size)
        by lia.
      rewrite <- drop_drop. apply take_take_drop. }
    split; [done|].
    rewrite forward_runs_app, Hr1, Hr3, loaded_app, length_app. lia.
Qed.

Lemma transfer_own_counts sess data_in paths_out model_path device
    batch_size mask blend w :
  let r := transfer no_eval sess data_in paths_out model_path device
             batch_size mask blend w in
  let k := length paths_out / Z.to_nat batch_size * Z.to_nat batch_size in
  ∃ es, trace r.2 = (trace w ++ es)%list ∧ opened es = []
    ∧ (is_ret r.1 = true →
       loaded es = (take 1 data_in ++ take k data_in)%list
       ∧ forward_runs es = length (take k data_in)).
Proof.
  unfold transfer, bind, getitem.
  destruct (data_in !! 0) as [first|] eqn:Hfirst; simpl;
    [|exists []; by rewrite app_nil_r].
  rewrite read_img_decoded.
  destruct (decoded (files w) first) as [img|]; simpl;
    [|exists []; by rewrite app_nil_r].
  unfold tf_placeholder.
  destruct (Z.ltb_spec batch_size 0) as [?|Hnn]; simpl;
    [by exists [EvRead first]|].
  unfold saver_restore. destruct (has_checkpoint model_path); simpl;
    [|by exists [EvRead first]].
  destruct (num_iters_of (length paths_out) batch_size) as [n|e] eqn:Hn;
    simpl.
  2:{ exists [EvRead first; EvRestore (sess_device sess) model_path].
      split_and!; try done. unfold log. simpl. by rewrite <- app_assoc. }
  assert (0 < batch_size)%Z as Hpos.
  { unfold num_iters_of in Hn. destruct (batch_size =? 0)%Z eqn:Hz; [done|].
    apply Z.eqb_neq in Hz. lia. }
  apply num_iters_of_pos in Hn; [|done]. subst n.
  set (w1 := log (EvRestore (sess_device sess) model_path)
               (log (EvRead first) w)).
  destruct (batches_counts sess data_in paths_out model_path (shape img)
              (Z.to_nat batch_size) mask blend
              (length paths_out / Z.to_nat batch_size) 0 None w1)
    as (es & Ht & Ho & Hret).
  destruct (batches _ _ _ _ _ _ _ _ _ _ w1) as [[u|e|] w2]; simpl in *.
  - assert (∀ c : bool, (if c then no_eval (drop (length paths_out
                 / Z.to_nat batch_size * Z.to_nat batch_size) data_in)
                 (drop (length paths_out / Z.to_nat batch_size
                  * Z.to_nat batch_size) paths_out)
                 model_path device batch_size mask blend
               else ret ()) w2 = (Ret (), w2)) as -> by (by intros []).
    simpl.
    exists (EvRead first :: EvRestore (sess_device sess) model_path :: es).
    split_and!.
    + rewrite Ht. unfold w1. simpl. by rewrite <- !app_assoc.
    + done.
    + intros _. destruct (Hret eq_refl) as [Hl Hr]. rewrite drop_0 in Hl.
      split.
      * simpl. rewrite Hl. f_equal.
        destruct data_in; [done|]. simpl in Hfirst. by injection Hfirst as ->.
      * change (forward_runs es = length (take (length paths_out
                 / Z.to_nat batch_size * Z.to_nat batch_size) data_in)).
        by rewrite Hr, Hl.
  - exists (EvRead first :: EvRestore (sess_device sess) model_path :: es).
    split_and!; try done.
    rewrite Ht. unfold w1. simpl. by rewrite <- !app_assoc.
  - exists (EvRead first :: EvRestore (sess_device sess) model_path :: es).
    split_and!; try done.
    rewrite Ht. unfold w1. simpl. by rewrite <- !app_assoc.
Qed.

(** X8. When the full batches of a [transfer] call on aligned lists
    return, the forward pass has run once for every image of those
    batches, [N / B * B] times for [N / B] batches, each image having been
    read once after the first image was read for its shape. *)
Theorem transfer_runs_once_per_image sess data_in paths_out model_path device
    batch_size mask blend w :
  length data_in = length paths_out →
  let r := transfer no_eval sess data_in paths_out model_path device
             batch_size mask blend w in
  let b := Z.to_nat batch_size in
  is_ret r.1 = true →
  ∃ es, trace r.2 = (trace w ++ es)%list
    ∧ forward_runs es = length paths_out / b * b
    ∧ loaded es = (take 1 data_in
                   ++ take (length paths_out / b * b) data_in)%list
    ∧ saved es = take (length paths_out / b * b) paths_out.
Proof.
  intros Hlen r b Hret.
  destruct (transfer_own_counts sess data_in paths_out model_path device
              batch_size mask blend w) as (es & Ht & _ & Hcount).
  destruct (transfer_own_spec sess data_in paths_out model_path device
              batch_size mask blend w) as (es' & Ht' & _ & _ & Hs & _).
  fold r in Ht, Ht', Hcount, Hs. rewrite Ht in Ht'.
  apply app_inv_head in Ht' as <-.
  destruct (Hcount Hret) as [Hl Hr]. destruct (Hs Hret) as [Hpos Hsaved].
  exists es. split_and!; try done.
  rewrite Hr, length_take, Hlen. fold b.
  pose proof (Nat.Div0.mul_div_le (length paths_out) b). lia.
Qed.


(** ** What a run that nothing disturbs writes *)










(** The first forward run of a [transfer] call on a device without the
    memory for a batch ends the call. *)
Lemma transfer_exhausted (e : eval_t) sess data_in paths_out model_path
    device sh batch_size mask blend w first :
  (0 < batch_size)%Z → (batch_size ≤ Z.of_nat (length paths_out))%Z →
  data_in !! 0 = Some first → readable sh (files w) first →
  has_checkpoint model_path = true →
  exhausted (sess_device sess) (Z.to_nat batch_size) sh = true →
  transfer e sess data_in paths_out model_path device batch_size mask
    blend w
  = (Raise ResourceExhaustedError,
     World (files w) (dirs w)
       (trace w ++ [EvRead first; EvRestore (sess_device sess) model_path;
                    EvRead first])).
Proof.
  intros Hb HbN Hfirst (img & Himg & Hshape) Hck Hmem.
  unfold transfer, bind, getitem. rewrite Hfirst. simpl.
  rewrite read_img_decoded, Himg. unfold tf_placeholder.
  destruct (Z.ltb_spec batch_size 0) as [?|_]; [lia|]. simpl.
  unfold saver_restore. rewrite Hck.
  destruct (num_iters_of (length paths_out) batch_size) as [n|err] eqn:Hn.
  2:{ unfold num_iters_of in Hn.
      destruct (Z.eqb_spec batch_size 0); [lia|done]. }
  apply num_iters_of_pos in Hn; [|done].
  assert (1 ≤ n).
  { subst n. apply Nat.div_le_lower_bound; lia. }
  destruct n as [|n]; [lia|]. simpl. unfold bind, batch_step, bind.
  simpl. rewrite drop_0.
  destruct data_in as [|first' rest]; [done|]. injection Hfirst as ->.
  destruct (Z.to_nat batch_size) as [|b] eqn:Hbn; [lia|].
  simpl. unfold bind. rewrite read_img_decoded. simpl. rewrite Himg.
  destruct (broadcast_to_same img) as [Hbc _].
  unfold setitem, rbind, getitem. simpl. rewrite ?Hbc. simpl.
  unfold sess_run. simpl. rewrite length_replicate, Hshape, Hmem.
  unfold log. simpl. by rewrite <- !app_assoc.
Qed.



(** X10. When neither the configured device nor the CPU has the memory
    for one batch, [eval] raises the resource exhaustion of the second
    attempt: each attempt has read the first image twice, for the shape
    and for the batch, and restored the checkpoint; nothing was written
    and the files are as before. *)
Theorem eval_both_exhausted data_in paths_out model_path device sh
    batch_size mask blend w first :
  (1 ≤ batch_size)%Z → paths_out ≠ [] →
  data_in !! 0 = Some first → readable sh (files w) first →
  has_checkpoint model_path = true →
  let b := Z.to_nat (Z.min (Z.of_nat (length paths_out)) batch_size) in
  exhausted device b sh = true → exhausted "/cpu:0" b sh = true →
  eval data_in paths_out model_path device batch_size mask blend w
  = (Raise ResourceExhaustedError,
     World (files w) (dirs w)
       (trace w ++ [EvSession device; EvRead first;
                    EvRestore device model_path; EvRead first;
                    EvSession "/cpu:0"; EvRead first;
                    EvRestore "/cpu:0" model_path; EvRead first])).
Proof.
  intros Hb Hne Hfirst Hread Hck b Hdev Hcpu.
  assert (0 < length paths_out) as Hpos
    by (destruct paths_out; [done|simpl; lia]).
  rewrite eval_unfold. unfold try_except, bind, tf_session.
  rewrite (transfer_exhausted eval (Session device) data_in paths_out
             model_path device sh _ mask blend _ first);
    try done; try lia.
  rewrite decide_True by done.
  rewrite (transfer_exhausted eval (Session "/cpu:0") data_in paths_out
             model_path device sh _ mask blend _ first);
    try done; try lia.
  simpl. by rewrite <- !app_assoc.
Qed.





(** ** The output directory *)

Lemma path_exists_makedirs_same q fs ds t :
  path_exists q (World fs ({[q]} ∪ ds) t) = true.
Proof.
  unfold path_exists. simpl. apply orb_true_iff. right.
  apply bool_decide_eq_true. set_solver.
Qed.

Lemma path_exists_makedirs_mono p q w t :
  path_exists p w = true →
  path_exists p (World (files w) ({[q]} ∪ dirs w) t) = true.
Proof.
  unfold path_exists. simpl. rewrite !orb_true_iff, !bool_decide_eq_true.
  intros [?|?]; [by left|right; set_solver].
Qed.

(** X13. A second call of [get_opts] on the same options has the outcome
    of the first and changes nothing: the directory the first call may
    have created is found by the second. *)
Theorem get_opts_idempotent o w :
  let r := get_opts o w in
  get_opts o r.2 = (r.1, r.2).
Proof.
  unfold get_opts, bind, os_path_exists, os_makedirs, py_assert, ret, raise.
  destruct (path_exists (opt_in_path o) w) eqn:Hin; simpl;
    [|by rewrite Hin].
  destruct (has_dot (opt_out_path o)) eqn:Hdot; simpl.
  - destruct (0 <? opt_batch_size o)%Z,
      ((opt_mask o =? 1)%Z || (opt_mask o =? 0)%Z),
      (Qle_bool (opt_blend o) 1); simpl; rewrite Hin; simpl;
      rewrite ?Hdot; done.
  - destruct (path_exists (opt_out_path o) w) eqn:Hout; simpl.
    + destruct (0 <? opt_batch_size o)%Z,
        ((opt_mask o =? 1)%Z || (opt_mask o =? 0)%Z),
        (Qle_bool (opt_blend o) 1); simpl; rewrite Hin; simpl;
        rewrite ?Hdot; simpl; rewrite Hout; done.
    + destruct (0 <? opt_batch_size o)%Z,
        ((opt_mask o =? 1)%Z || (opt_mask o =? 0)%Z),
        (Qle_bool (opt_blend o) 1); simpl;
        rewrite (path_exists_makedirs_mono _ _ w _ Hin); simpl;
        rewrite ?Hdot; simpl; rewrite path_exists_makedirs_same; done.
Qed.



(** ** A prediction that is not of the input's size *)

Lemma np_multiply_crop x y h w' c ph pw :
  shape x = (h, w', c) → shape y = (ph, pw, c) → h ≤ ph → w' ≤ pw →
  ∃ z,
    np_multiply x
      (if negb (shape_eqb (shape x) (shape y))
       then crop y (shape x).1.1 (shape x).1.2 else y) = Ok z
    ∧ shape z = (h, w', c)
    ∧ ∀ a b k, in_bounds (h, w', c) a b k →
        item z a b k = (item x a b k * item y a b k)%Q.
Proof.
  intros Hx Hy Hh Hw.
  set (y' := if negb (shape_eqb (shape x) (shape y))
             then crop y (shape x).1.1 (shape x).1.2 else y).
  assert (shape y' = shape x ∧ item y' = item y) as [Hs Hi].
  { unfold y', shape_eqb. case_bool_decide as Heq; simpl; [done|].
    unfold crop. rewrite Hx, Hy. simpl.
    by rewrite !Nat.min_l by done. }
  destruct (np_multiply_same x y' Hs) as (z & Hz & Hsz & Hitem).
  exists z. split_and!; [done|by rewrite Hsz|].
  intros a b k Hin. rewrite Hitem, Hi; [done|by rewrite Hx].
Qed.

(** X15. A prediction at least as tall and as wide as the input is cut
    down to the input's height and width from its top left corner before
    it is masked or blended: pixel [(a, b, k)] of the written image comes
    from pixel [(a, b, k)] of the clipped prediction. *)
Theorem postprocess_crops_prediction x ps i j mask blend xi xj p h w' c
    ph pw :
  x !! i = Some xi → x !! j = Some xj → ps !! j = Some p →
  shape xi = (h, w', c) → shape xj = (h, w', c) → shape p = (ph, pw, c) →
  h ≤ ph → w' ≤ pw →
  (mask = 1%Z → ¬ (0 < blend)%Q → ∀ m, np_max xi = Ok m →
   ∃ img, postprocess x (Some ps) i j mask blend = Ok img
     ∧ shape img = (h, w', c)
     ∧ ∀ a b k, in_bounds (h, w', c) a b k →
         item img a b k
         = ((if Qgtb (item xj a b k) (m * 0.01) then 1 else 0)
            * item (np_clip_uint8 p) a b k)%Q)
  ∧ (mask ≠ 1%Z → (0 < blend)%Q →
     ∃ img, postprocess x (Some ps) i j mask blend = Ok img
       ∧ shape img = (h, w', c)
       ∧ ∀ a b k, in_bounds (h, w', c) a b k →
           item img a b k
           = (item xi a b k * blend * item (np_clip_uint8 p) a b k)%Q).
Proof.
  intros Hi Hj Hp Hsi Hsj Hsp Hh Hw. split.
  - intros -> Hblend m Hm.
    assert (Qgtb blend 0 = false) as Hb.
    { apply not_true_iff_false. by rewrite Qgtb_lt. }
    unfold postprocess, rbind, getitem. rewrite Hi, Hj, Hp, Hm, Hb. simpl.
    destruct (np_multiply_crop (np_where_gt xj (m * 0.01))
                (np_clip_uint8 p) h w' c ph pw)
      as (z & Hz & Hsz & Hitem); try done.
    simpl in Hz. rewrite Hz. by exists z.
  - intros Hmask Hblend. apply Z.eqb_neq in Hmask.
    apply Qgtb_lt in Hblend.
    unfold postprocess, rbind, getitem. rewrite Hi, Hp, Hmask, Hblend.
    simpl.
    destruct (np_multiply_crop (np_scale xi blend) (np_clip_uint8 p)
                h w' c ph pw)
      as (z & Hz & Hsz & Hitem); try done.
    simpl in Hz. rewrite Hz. by exists z.
Qed.

Lemma bcast_dim_none d e : e < d → e ≠ 1 → d ≠ 1 → bcast_dim d (d `min` e) = None.
Proof.
  intros Hlt He Hd. unfold bcast_dim. rewrite Nat.min_r by lia.
  destruct (Nat.eqb_spec d e); [lia|].
  destruct (Nat.eqb_spec d 1); [lia|].
  destruct (Nat.eqb_spec e 1); [lia|]. done.
Qed.

Lemma np_multiply_small x y h w' c ph pw pc :
  shape x = (h, w', c) → shape y = (ph, pw, pc) →
  (ph < h ∧ ph ≠ 1 ∧ h ≠ 1) ∨ (pw < w' ∧ pw ≠ 1 ∧ w' ≠ 1) →
  np_multiply x
    (if negb (shape_eqb (shape x) (shape y))
     then crop y (shape x).1.1 (shape x).1.2 else y) = Err ValueError.
Proof.
  intros Hx Hy Hsmall. unfold shape_eqb.
  rewrite bool_decide_eq_false_2.
  2:{ rewrite Hx, Hy. intros [= -> -> ->]. lia. }
  simpl. unfold np_multiply, crop. rewrite Hx, Hy. simpl.
  destruct Hsmall as [(? & ? & ?)|(? & ? & ?)].
  - by rewrite (bcast_dim_none h ph).
  - destruct (bcast_dim h (h `min` ph)); simpl; [|done].
    by rewrite (bcast_dim_none w' pw).
Qed.

(** X16. The crop cannot enlarge a prediction: with a mask or a blend, a
    prediction less tall or less wide than the input, neither extent
    being one, ends [postprocess] with a [ValueError]. *)
Theorem postprocess_small_prediction x ps i j mask blend xi xj p h w' c
    ph pw pc :
  mask = 1%Z ∨ (0 < blend)%Q →
  x !! i = Some xi → x !! j = Some xj → ps !! j = Some p →
  shape xi = (h, w', c) → shape xj = (h, w', c) → shape p = (ph, pw, pc) →
  (ph < h ∧ ph ≠ 1 ∧ h ≠ 1) ∨ (pw < w' ∧ pw ≠ 1 ∧ w' ≠ 1) →
  postprocess x (Some ps) i j mask blend = Err ValueError.
Proof.
  intros Hmb Hi Hj Hp Hsi Hsj Hsp Hsmall.
  unfold postprocess, rbind, getitem. rewrite Hi, Hj, Hp. simpl.
  destruct (Z.eqb_spec mask 1) as [->|Hmask].
  - destruct (np_max xi) as [m|e] eqn:Hm.
    2:{ unfold np_max in Hm. destruct (elements xi); [|done].
        by injection Hm as <-. }
    pose proof (np_multiply_small (np_where_gt xj (m * 0.01))
                  (np_clip_uint8 p) h w' c ph pw pc Hsj Hsp Hsmall) as Hsm.
    simpl in *. by rewrite Hsm.
  - destruct Hmb as [?|Hblend]; [done|].
    apply Qgtb_lt in Hblend. rewrite Hblend.
    pose proof (np_multiply_small (np_scale xi blend) (np_clip_uint8 p)
                  h w' c ph pw pc Hsi Hsp Hsmall) as Hsm.
    simpl in *. by rewrite Hsm.
Qed.


(** ** Images of one shape *)

Lemma group_loop_one_shape in_path out_path sh w0 :
  length in_path = length out_path →
  (∀ p, p ∈ in_path → ∃ img, files w0 !! p = Some img ∧ shape img = sh) →
  let G := λ n : nat,
    ((match n with
      | 0 => ∅
      | S _ => {[shape_key sh := take n in_path]}
      end,
      match n with
      | 0 => ∅
      | S _ => {[shape_key sh := take n out_path]}
      end) : groups) in
  ∀ m n w, n + m = length in_path → files w = files w0 →
  group_loop in_path out_path (seq n m) (G n) w
  = (Ret (G (n + m)),
     World (files w) (dirs w)
       (trace w ++ (EvRead <$> take m (drop n in_path)))).
Proof.
  intros Hlen Hfiles G.
  induction m as [|m IH]; intros n w Hn Hw; simpl.
  { rewrite Nat.add_0_r, app_nil_r. by destruct w. }
  unfold bind.
  destruct (lookup_lt_is_Some_2 in_path n) as [p Hp]; [lia|].
  destruct (lookup_lt_is_Some_2 out_path n) as [q Hq]; [lia|].
  unfold getitem. rewrite Hp, Hq. simpl.
  destruct (Hfiles p) as (img & Himg & Hshape);
    [by eapply list_elem_of_lookup_2|].
  unfold imread. rewrite Hw, Himg, Hshape.
  match goal with
  | |- group_loop _ _ _ ?g _ = _ => assert (g = G (S n)) as ->
  end.
  { unfold G, dict_append. destruct n as [|n]; simpl.
    - rewrite !lookup_total_empty, !insert_empty. simpl.
      destruct in_path, out_path; simpl in *; try done.
      injection Hp as ->. injection Hq as ->. by rewrite !take_0.
    - rewrite !lookup_total_singleton, !insert_singleton_eq.
      rewrite !decide_True by done.
      by rewrite (take_S_r in_path (S n) p), (take_S_r out_path (S n) q). }
  rewrite IH by (done || lia). simpl.
  replace (n + S m) with (S n + m) by lia.
  rewrite (drop_S in_path p n Hp), ?Hw. simpl.
  by rewrite <- app_assoc.
Qed.

(** X17. On aligned non-empty lists of images that all have the same
    shape, [eval_mul_dims] reads every input once, in order, and then is
    one [eval] call on the whole lists. *)
Theorem eval_mul_dims_one_shape in_path out_path model_path device
    batch_size mask blend sh w :
  in_path ≠ [] → length in_path = length out_path →
  (∀ p, p ∈ in_path → ∃ img, files w !! p = Some img ∧ shape img = sh) →
  eval_mul_dims in_path out_path model_path device batch_size mask blend w
  = eval in_path out_path model_path device batch_size mask blend
      (World (files w) (dirs w) (trace w ++ (EvRead <$> in_path))).
Proof.
  intros Hne Hlen Hfiles. unfold eval_mul_dims, bind.
  pose proof (group_loop_one_shape in_path out_path sh w Hlen Hfiles
                (length in_path) 0 w eq_refl eq_refl) as Hloop.
  simpl in Hloop. rewrite Hloop. clear Hloop.
  rewrite drop_0, take_ge by done.
  destruct (length in_path) as [|n] eqn:HN.
  { destruct in_path; [done|simpl in HN; lia]. }
  simpl. rewrite map_to_list_singleton. simpl. unfold bind.
  rewrite !lookup_total_singleton, !decide_True by done.
  rewrite ?(take_ge in_path), ?(take_ge out_path) by lia.
  destruct (eval _ _ _ _ _ _ _ _) as [[[]|e|] w1]; done.
Qed.

(** ** A checkpoint that is not there *)

(** X18. Without a checkpoint for the model, [eval] on a readable first
    input and a batch size that is not negative raises the error of the
    restore: it has opened one session and read the first image, it does
    not fall back to the CPU, and the files are as before. *)
Theorem eval_missing_checkpoint data_in paths_out model_path device
    batch_size mask blend w first :
  data_in !! 0 = Some first → is_Some (files w !! first) →
  (0 ≤ batch_size)%Z →
  has_checkpoint model_path = false →
  eval data_in paths_out model_path device batch_size mask blend w
  = (Raise NotFoundError,
     World (files w) (dirs w)
       (trace w ++ [EvSession device; EvRead first])).
Proof.
  intros Hfirst [img Himg] Hb Hck.
  rewrite eval_unfold.
  unfold try_except, bind, tf_session, transfer, bind, getitem.
  rewrite Hfirst. simpl. rewrite read_img_decoded. unfold decoded. simpl.
  rewrite Himg. simpl. unfold tf_placeholder.
  destruct (Z.ltb_spec (Z.of_nat (length paths_out) `min` batch_size) 0)
    as [?|_]; [lia|].
  simpl. unfold saver_restore. rewrite Hck. unfold log. simpl.
  by rewrite <- app_assoc.
Qed.


(** ** An input that is missing in the middle of a run *)






(** ** What a run with a mask or a blend writes before it fails *)










(** ** The predictions are assigned before they are used *)

Lemma postprocess_assigned x ps i j mask blend e :
  postprocess x (Some ps) i j mask blend = Err e → e ≠ UnboundLocalError.
Proof.
  unfold postprocess, rbind, getitem, np_max, np_multiply.
  repeat case_match; congruence.
Qed.

Lemma setitem_err x j img e :
  setitem x j img = Err e → e ≠ UnboundLocalError.
Proof.
  unfold setitem, rbind, getitem, broadcast_to.
  repeat case_match; congruence.
Qed.

Lemma fill_batch_assigns sess model_path img_shape : ∀ ins j x _preds w,
  let r := fill_batch sess model_path img_shape j ins x _preds w in
  r.1 ≠ Raise UnboundLocalError
  ∧ ∀ filled, r.1 = Ret filled → ins ≠ [] ∨ is_Some _preds →
      is_Some filled.2.
Proof.
  induction ins as [|path_in rest IH]; intros j x _preds w; simpl.
  { split; [done|]. intros filled [= <-] [?|?]; done. }
  unfold bind. rewrite read_img_decoded.
  destruct (decoded (files w) path_in) as [img|]; simpl; [|done].
  pose proof (setitem_err x j img) as Hset.
  destruct (setitem x j img) as [x'|e]; simpl.
  2:{ split; [|done]. intros [= ->]. by apply (Hset UnboundLocalError). }
  unfold sess_run. destruct (exhausted _ _ _); simpl; [done|].
  destruct (IH (S j) x' (Some (net model_path (sess_device sess) x'))
              (log (EvRun (sess_device sess) x') (log (EvRead path_in) w)))
    as [Hne Hsome].
  split; [done|]. intros filled Hret _. apply Hsome; [done|by right].
Qed.

Lemma save_batch_assigned x ps i mask blend : ∀ outs j w,
  (save_batch x (Some ps) i mask blend j outs w).1
  ≠ Raise UnboundLocalError.
Proof.
  induction outs as [|path_out rest IH]; intros j w; simpl; [done|].
  unfold bind.
  pose proof (postprocess_assigned x ps i j mask blend) as Herr.
  destruct (postprocess x (Some ps) i j mask blend) as [img|e]; simpl.
  - apply IH.
  - intros [= ->]. by apply (Herr UnboundLocalError).
Qed.

Lemma batch_step_assigns sess data_in paths_out model_path img_shape
    batch_size mask blend i _preds w :
  take batch_size (drop (i * batch_size) data_in) ≠ [] ∨ is_Some _preds →
  let r := batch_step sess data_in paths_out model_path img_shape batch_size
             mask blend i _preds w in
  r.1 ≠ Raise UnboundLocalError ∧ ∀ ps, r.1 = Ret ps → is_Some ps.
Proof.
  intros Hpre. unfold batch_step, bind.
  destruct (fill_batch_assigns sess model_path img_shape
              (take batch_size (drop (i * batch_size) data_in)) 0
              (replicate batch_size (np_zeros img_shape)) _preds w)
    as [Hne Hsome].
  destruct (fill_batch _ _ _ _ _ _ _ w) as [[[x ps]|e|] w1]; simpl in *;
    [|split; [intros [= ->]; by apply Hne|done]|by split].
  destruct (Hsome (x, ps) eq_refl Hpre) as [ps' Hps]. simpl in Hps.
  subst ps.
  pose proof (save_batch_assigned x ps' i mask blend
                (take batch_size (drop (i * batch_size) paths_out)) 0 w1)
    as Hsave.
  destruct (save_batch _ _ _ _ _ _ _ w1) as [[u|e|] w2]; simpl in *;
    [|split; [intros [= ->]; by apply Hsave|done]|by split].
  split; [done|]. by intros ps [= <-].
Qed.

Lemma batches_assigned sess data_in paths_out model_path img_shape
    batch_size mask blend : ∀ iters _preds w,
  is_Some _preds
  ∨ (∃ i rest, iters = i :: rest
       ∧ take batch_size (drop (i * batch_size) data_in) ≠ []) →
  (batches sess data_in paths_out model_path img_shape batch_size mask
     blend iters _preds w).1 ≠ Raise UnboundLocalError.
Proof.
  induction iters as [|i rest IH]; intros _preds w Hpre; simpl; [done|].
  unfold bind.
  destruct (batch_step_assigns sess data_in paths_out model_path img_shape
              batch_size mask blend i _preds w) as [Hne Hsome].
  { destruct Hpre as [?|(i' & rest' & [= <- <-] & ?)]; [by right|by left]. }
  destruct (batch_step _ _ _ _ _ _ _ _ _ _ w) as [[ps|e|] w1]; simpl in *;
    [|intros [= ->]; by apply Hne|done].
  apply IH. left. by apply Hsome.
Qed.

Lemma transfer_assigned (e : eval_t) sess data_in paths_out model_path
    device batch_size mask blend w :
  (∀ d p m dev b ma bl w',
     (e d p m dev b ma bl w').1 ≠ Raise UnboundLocalError) →
  (transfer e sess data_in paths_out model_path device batch_size mask
     blend w).1 ≠ Raise UnboundLocalError.
Proof.
  intros He. unfold transfer, bind, getitem.
  destruct (data_in !! 0) as [first|] eqn:Hfirst; simpl; [|done].
  rewrite read_img_decoded.
  destruct (decoded (files w) first) as [img|]; simpl; [|done].
  unfold tf_placeholder.
  destruct (Z.ltb_spec batch_size 0) as [?|Hnn]; simpl; [done|].
  unfold saver_restore. destruct (has_checkpoint model_path); simpl;
    [|done].
  destruct (num_iters_of (length paths_out) batch_size) as [n|err] eqn:Hn;
    simpl.
  2:{ unfold num_iters_of in Hn.
      destruct (batch_size =? 0)%Z; [|done]. by injection Hn as <-. }
  assert (0 < batch_size)%Z as Hpos.
  { unfold num_iters_of in Hn. destruct (batch_size =? 0)%Z eqn:Hz; [done|].
    apply Z.eqb_neq in Hz. lia. }
  destruct n as [|n].
  { simpl. case_match; [apply He|done]. }
  pose proof (batches_assigned sess data_in paths_out model_path (shape img)
                (Z.to_nat batch_size) mask blend (seq 0 (S n)) None
                (log (EvRestore (sess_device sess) model_path)
                   (log (EvRead first) w))) as Hb.
  destruct (batches _ _ _ _ _ _ _ _ _ _ _) as [[u|err|] w2]; simpl in *.
  - case_match; [apply He|done].
  - intros [= ->]. apply Hb; [|done]. right.
    exists 0, (seq 1 n). split; [done|]. simpl. rewrite drop_0.
    destruct data_in as [|p rest]; [done|].
    destruct (Z.to_nat batch_size) eqn:Hz; [lia|done].
  - done.
Qed.

Lemma eval_fuel_assigned f : ∀ data_in paths_out model_path device
    batch_size mask blend w,
  (eval_fuel f data_in paths_out model_path device batch_size mask blend
     w).1 ≠ Raise UnboundLocalError.
Proof.
  induction f as [|f IH];
    intros data_in paths_out model_path device batch_size mask blend w;
    simpl; [done|].
  unfold try_except, bind, tf_session.
  pose proof (transfer_assigned (eval_fuel f) (Session device) data_in
                paths_out model_path device
                (Z.of_nat (length paths_out) `min` batch_size) mask blend
                (log (EvSession device) w) IH) as H1.
  destruct (transfer _ _ _ _ _ _ _ _ _ _) as [[u|e|] w1]; simpl in *;
    try done.
  case_decide; [|done].
  apply (transfer_assigned (eval_fuel f) (Session "/cpu:0")). apply IH.
Qed.

(** X21. The predictions are never used before a forward run has
    assigned them: whatever the lists, the batch size and the state,
    neither [eval] nor [eval_mul_dims] raises [UnboundLocalError]. *)
Theorem predictions_assigned_before_use data_in paths_out model_path device
    batch_size mask blend w :
  (eval data_in paths_out model_path device batch_size mask blend w).1
  ≠ Raise UnboundLocalError
  ∧ (eval_mul_dims data_in paths_out model_path device batch_size mask
       blend w).1 ≠ Raise UnboundLocalError.
Proof.
  split; [apply eval_fuel_assigned|].
  unfold eval_mul_dims, bind.
  assert (∀ iters g w',
    match (group_loop data_in paths_out iters g w').1 with
    | Raise e => e ≠ UnboundLocalError
    | _ => True
    end) as Hloop.
  { induction iters as [|i rest IH]; intros g w'; simpl; [done|].
    unfold bind, getitem.
    destruct (data_in !! i); simpl; [|done].
    destruct (paths_out !! i); simpl; [|done].
    unfold imread. destruct (files w' !! s); simpl; [|done]. apply IH. }
  specialize (Hloop (seq 0 (length data_in)) (∅, ∅) w).
  destruct (group_loop _ _ _ _ w) as [[g|e|] w1]; simpl in *;
    [|by intros [= ->]|done].
  generalize ((map_to_list g.1).*1). intros keys. revert w1.
  induction keys as [|k keys IH]; intros w1; simpl; [done|].
  unfold bind.
  assert ((eval (g.1 !!! k) (g.2 !!! k) model_path device batch_size mask
             blend w1).1 ≠ Raise UnboundLocalError) as H1
    by apply eval_fuel_assigned.
  destruct (eval _ _ _ _ _ _ _ w1) as [[u|e|] w2]; simpl in *;
    [apply IH|intros [= ->]; by apply H1|done].
Qed.


(** ** Images of several shapes, undisturbed *)








End Proofs.

(** * The claims on concrete inputs *)

Import Fixture.

(** The scenario of five images of one shape in batches of two: two full
    batches, then the leftover image, five outputs in order. *)
Example five_images_batches_of_two :
  let r := run ["a"; "b"; "c"; "d"; "e"] ["oa"; "ob"; "oc"; "od"; "oe"]
             "cubist" "/gpu:0" 2%Z 0%Z 0%Q disk in
  r.1 = Ret tt ∧ saved (trace r.2) = ["oa"; "ob"; "oc"; "od"; "oe"].
Proof. vm_compute. done. Qed.

(** An accelerator out of memory: one session on it, one on the CPU, and
    the outputs written there. *)
Example fallback_to_cpu :
  let r := eval identity_net gpu_exhausted any_checkpoint stored_as_is
             ["a"; "b"] ["oa"; "ob"] "cubist" "/gpu:0" 2%Z 0%Z 0%Q disk in
  r.1 = Ret tt
  ∧ sessions (trace r.2) = ["/gpu:0"; "/cpu:0"]
  ∧ saved (trace r.2) = ["oa"; "ob"].
Proof. vm_compute. done. Qed.

(** C2, at a failing input.  With [mask = 1] and a batch of the two images
    ["a"] (all zero) and ["b"] (channels 1, 200, 0), the first channel of
    ["b"] is at most one percent of the maximum of ["b"], yet the image
    written for ["b"] holds 1 there: the threshold is one percent of the
    maximum of ["a"], slot 0 of the buffer of batch 0. *)
Lemma mask_threshold_of_other_image :
  let r := run ["a"; "b"] ["oa"; "ob"] "cubist" "/gpu:0" 2%Z 1%Z 0%Q disk in
  r.1 = Ret tt
  ∧ files disk !! "b" = Some (rgb 1 200 0)
  ∧ np_max (rgb 1 200 0) = Ok 200%Q
  ∧ (item (rgb 1 200 0) 0 0 0 <= 0.01 * 200)%Q
  ∧ ∃ v, last_saved "ob" (trace r.2) = Some v ∧ (v == 1)%Q ∧ ¬ (v == 0)%Q.
Proof.
  split_and!.
  - by vm_compute.
  - by vm_compute.
  - by vm_compute.
  - by vm_compute.
  - eexists. split; [vm_compute; reflexivity|]. by split.
Qed.

(** C3, at a failing input.  With [blend = 1/2], no mask and a batch of
    the two images ["c"] (all 2) and ["d"] (channels 4, 0, 8), the first
    channel of the image written for ["d"] is [1/2 * 2 * 4 = 4], the
    product with ["c"], slot 0 of the buffer of batch 0, and not
    [1/2 * 4 * 4 = 8], the product with ["d"] itself. *)
Lemma blend_with_other_image :
  let r := run ["c"; "d"] ["oc"; "od"] "cubist" "/gpu:0" 2%Z 0%Z (1 # 2) disk in
  r.1 = Ret tt
  ∧ files disk !! "c" = Some (rgb 2 2 2)
  ∧ files disk !! "d" = Some (rgb 4 0 8)
  ∧ ∃ v, last_saved "od" (trace r.2) = Some v
      ∧ (v == (1 # 2) * item (rgb 2 2 2) 0 0 0
               * item (np_clip_uint8 (rgb 4 0 8)) 0 0 0)%Q
      ∧ ¬ (v == (1 # 2) * item (rgb 4 0 8) 0 0 0
                  * item (np_clip_uint8 (rgb 4 0 8)) 0 0 0)%Q.
Proof.
  split_and!.
  - by vm_compute.
  - by vm_compute.
  - by vm_compute.
  - eexists. split; [vm_compute; reflexivity|]. by split.
Qed.

(** C4, the claim as stated fails: five images in batches of two are more
    than [2 * 2] images, run with [mask = 1], and the run returns: with two
    full batches the batch index stays below the two slots of the
    buffer. *)
Lemma mask_run_over_square_returns :
  let paths_out := ["oa"; "ob"; "oc"; "od"; "oe"] in
  let b := Z.to_nat (Z.min (Z.of_nat (length paths_out)) 2) in
  b * b < length paths_out
  ∧ is_raise (run ["a"; "b"; "c"; "d"; "e"] paths_out "cubist" "/gpu:0"
                2%Z 1%Z 0%Q disk).1 = false.
Proof. split; [simpl; lia|by vm_compute]. Qed.


(** Six images in batches of two with a mask: the third batch reads slot 2
    of a buffer of two slots. *)
Lemma mask_blend_index_batch_witness :
  is_raise (run ["a"; "b"; "c"; "d"; "e"; "a"]
              ["oa"; "ob"; "oc"; "od"; "oe"; "of"] "cubist" "/gpu:0"
              2%Z 1%Z 0%Q disk).1 = true.
Proof.
  destruct (mask_blend_index_batch identity_net never_exhausted
              any_checkpoint stored_as_is
              ["a"; "b"; "c"; "d"; "e"; "a"]
              ["oa"; "ob"; "oc"; "od"; "oe"; "of"] "cubist" "/gpu:0"
              2%Z 1%Z 0%Q disk) as (_ & Hraise & _);
    [by left|vm_compute; lia|].
  exact Hraise.
Defined.

(** Five images in batches of two: two levels of recursion. *)
Lemma eval_recursion_terminates_witness :
  eval_fuel identity_net never_exhausted any_checkpoint stored_as_is 2
    ["a"; "b"; "c"; "d"; "e"] ["oa"; "ob"; "oc"; "od"; "oe"]
    "cubist" "/gpu:0" 2%Z 0%Z 0%Q disk
  = run ["a"; "b"; "c"; "d"; "e"] ["oa"; "ob"; "oc"; "od"; "oe"]
      "cubist" "/gpu:0" 2%Z 0%Z 0%Q disk.
Proof.
  destruct (eval_recursion_terminates identity_net never_exhausted
              any_checkpoint stored_as_is 2
              ["a"; "b"; "c"; "d"; "e"] ["oa"; "ob"; "oc"; "od"; "oe"]
              "cubist" "/gpu:0" 2%Z 0%Z 0%Q disk)
    as (_ & _ & _ & _ & _ & _ & Heq);
    [done|reflexivity|lia|lia|].
  exact Heq.
Defined.

(** Three images of one shape: one group, holding them all. *)
Lemma eval_mul_dims_groups_partition_witness :
  ∃ g w',
    group_loop ["a"; "b"; "c"] ["oa"; "ob"; "oc"] (seq 0 3) (∅, ∅) disk
    = (Ret g, w')
    ∧ mjoin (map_to_list g.1).*2 ≡ₚ ["a"; "b"; "c"]
    ∧ mjoin (map_to_list g.2).*2 ≡ₚ ["oa"; "ob"; "oc"].
Proof.
  destruct (eval_mul_dims_groups_partition identity_net never_exhausted
              any_checkpoint stored_as_is ["a"; "b"; "c"]
              ["oa"; "ob"; "oc"] "cubist" "/gpu:0" 2%Z 0%Z 0%Q disk)
    as (g & w' & Hrun & _ & _ & _ & _ & _ & Hin & Hout).
  - reflexivity.
  - intros p Hp. repeat (apply elem_of_cons in Hp as [->|Hp]);
      [eexists; vm_compute; reflexivity..|by apply elem_of_nil in Hp].
  - exists g, w'. split; [exact Hrun|]. split; [exact Hin|exact Hout].
Defined.


(** * The further properties on concrete inputs *)

(** A batch size of zero: the call ends before its first batch, and not
    on a resource exhaustion. *)
Lemma eval_nonpositive_batch_size_witness :
  ∃ err, (run ["a"] ["oa"] "cubist" "/gpu:0" 0%Z 0%Z 0%Q disk).1 = Raise err
         ∧ err ≠ ResourceExhaustedError.
Proof.
  destruct (eval_nonpositive_batch_size identity_net never_exhausted
              any_checkpoint stored_as_is ["a"] ["oa"] "cubist" "/gpu:0"
              0%Z 0%Z 0%Q disk)
    as (err & es & Hr & Hne & _); [left; lia|].
  exists err. split; [exact Hr|exact Hne].
Defined.

(** Three inputs for one output: the second index has no output. *)
Lemma eval_mul_dims_short_outputs_witness :
  eval_mul_dims identity_net never_exhausted any_checkpoint stored_as_is
    ["a"; "b"; "c"] ["oa"] "cubist" "/gpu:0" 2%Z 0%Z 0%Q disk
  = (Raise IndexError,
     World (files disk) (dirs disk) (trace disk ++ [EvRead "a"])).
Proof.
  apply (eval_mul_dims_short_outputs identity_net never_exhausted
           any_checkpoint stored_as_is ["a"; "b"; "c"] ["oa"] "cubist"
           "/gpu:0" 2%Z 0%Z 0%Q disk).
  - simpl. lia.
  - intros [|i] p Hi Hp; [|simpl in Hi; lia].
    injection Hp as <-. eexists. vm_compute. reflexivity.
Defined.

(** The second of three inputs is not on disk. *)
Lemma eval_mul_dims_missing_input_witness :
  eval_mul_dims identity_net never_exhausted any_checkpoint stored_as_is
    ["a"; "zz"; "c"] ["oa"; "ob"; "oc"] "cubist" "/gpu:0" 2%Z 0%Z 0%Q disk
  = (Raise IOError,
     World (files disk) (dirs disk) (trace disk ++ [EvRead "a"])).
Proof.
  apply (eval_mul_dims_missing_input identity_net never_exhausted
           any_checkpoint stored_as_is ["a"; "zz"; "c"] ["oa"; "ob"; "oc"]
           "cubist" "/gpu:0" 2%Z 0%Z 0%Q disk 1 "zz").
  - reflexivity.
  - vm_compute. reflexivity.
  - simpl. lia.
  - intros [|i] p Hi Hp; [|lia].
    injection Hp as <-. eexists. vm_compute. reflexivity.
Defined.

(** Three images in batches of two: the one full batch runs the network
    twice. *)
Lemma transfer_runs_once_per_image_witness :
  ∃ es,
    trace (transfer identity_net never_exhausted any_checkpoint stored_as_is
             no_eval (Session "/gpu:0") ["a"; "b"; "c"] ["oa"; "ob"; "oc"]
             "cubist" "/gpu:0" 2%Z 0%Z 0%Q disk).2 = (trace disk ++ es)%list
    ∧ forward_runs es = 2
    ∧ saved es = ["oa"; "ob"].
Proof.
  destruct (transfer_runs_once_per_image identity_net never_exhausted
              any_checkpoint stored_as_is (Session "/gpu:0")
              ["a"; "b"; "c"] ["oa"; "ob"; "oc"] "cubist" "/gpu:0"
              2%Z 0%Z 0%Q disk)
    as (es & Ht & Hr & _ & Hs); [reflexivity|vm_compute; reflexivity|].
  exists es. split; [exact Ht|]. split; [exact Hr|exact Hs].
Defined.


(** No device has the memory for one image. *)
Lemma eval_both_exhausted_witness :
  eval identity_net (λ _ _ _, true) any_checkpoint stored_as_is
    ["a"] ["oa"] "cubist" "/gpu:0" 1%Z 0%Z 0%Q disk
  = (Raise ResourceExhaustedError,
     World (files disk) (dirs disk)
       (trace disk ++ [EvSession "/gpu:0"; EvRead "a";
                       EvRestore "/gpu:0" "cubist"; EvRead "a";
                       EvSession "/cpu:0"; EvRead "a";
                       EvRestore "/cpu:0" "cubist"; EvRead "a"])).
Proof.
  apply (eval_both_exhausted identity_net (λ _ _ _, true) any_checkpoint
           stored_as_is ["a"] ["oa"] "cubist" "/gpu:0" (1, 1, 3) 1%Z
           0%Z 0%Q disk "a").
  - lia.
  - done.
  - reflexivity.
  - eexists. split; vm_compute; reflexivity.
  - reflexivity.
  - reflexivity.
  - reflexivity.
Defined.



(** A prediction of two by two pixels for an input of one pixel, with a
    mask. *)
Lemma postprocess_crops_prediction_witness :
  ∃ img,
    postprocess [rgb 1 200 0] (Some [NdArray (2, 2, 3) (λ _ _ _, 300%Q)])
      0 0 1%Z 0%Q = Ok img
    ∧ shape img = (1, 1, 3).
Proof.
  destruct (postprocess_crops_prediction [rgb 1 200 0]
              [NdArray (2, 2, 3) (λ _ _ _, 300%Q)] 0 0 1%Z 0%Q
              (rgb 1 200 0) (rgb 1 200 0)
              (NdArray (2, 2, 3) (λ _ _ _, 300%Q)) 1 1 3 2 2)
    as [Hmask _]; [reflexivity..|lia|lia|].
  destruct (Hmask eq_refl (Qlt_irrefl 0) 200%Q) as (img & Hrun & Hsh & _).
  - vm_compute. reflexivity.
  - exists img. split; [exact Hrun|exact Hsh].
Defined.

(** A prediction two pixels tall for an input three pixels tall, with a
    mask. *)
Lemma postprocess_small_prediction_witness :
  postprocess [NdArray (3, 3, 3) (λ _ _ _, 5%Q)]
    (Some [NdArray (2, 3, 3) (λ _ _ _, 7%Q)]) 0 0 1%Z 0%Q
  = Err ValueError.
Proof.
  apply (postprocess_small_prediction [NdArray (3, 3, 3) (λ _ _ _, 5%Q)]
           [NdArray (2, 3, 3) (λ _ _ _, 7%Q)] 0 0 1%Z 0%Q
           (NdArray (3, 3, 3) (λ _ _ _, 5%Q))
           (NdArray (3, 3, 3) (λ _ _ _, 5%Q))
           (NdArray (2, 3, 3) (λ _ _ _, 7%Q)) 3 3 3 2 3 3).
  - by left.
  - reflexivity.
  - reflexivity.
  - reflexivity.
  - reflexivity.
  - reflexivity.
  - reflexivity.
  - left. lia.
Defined.

(** Two images of one pixel each. *)
Lemma eval_mul_dims_one_shape_witness :
  eval_mul_dims identity_net never_exhausted any_checkpoint stored_as_is
    ["a"; "b"] ["oa"; "ob"] "cubist" "/gpu:0" 2%Z 0%Z 0%Q disk
  = run ["a"; "b"] ["oa"; "ob"] "cubist" "/gpu:0" 2%Z 0%Z 0%Q
      (World (files disk) (dirs disk)
         (trace disk ++ [EvRead "a"; EvRead "b"])).
Proof.
  apply (eval_mul_dims_one_shape identity_net never_exhausted any_checkpoint
           stored_as_is ["a"; "b"] ["oa"; "ob"] "cubist" "/gpu:0" 2%Z 0%Z
           0%Q (1, 1, 3) disk).
  - done.
  - reflexivity.
  - intros p Hp. repeat (apply elem_of_cons in Hp as [->|Hp]);
      [eexists; split; vm_compute; reflexivity..|by apply elem_of_nil in Hp].
Defined.

(** A model without a checkpoint. *)
Lemma eval_missing_checkpoint_witness :
  eval identity_net never_exhausted (λ _, false) stored_as_is
    ["a"; "b"] ["oa"; "ob"] "cubist" "/gpu:0" 2%Z 0%Z 0%Q disk
  = (Raise NotFoundError,
     World (files disk) (dirs disk)
       (trace disk ++ [EvSession "/gpu:0"; EvRead "a"])).
Proof.
  apply (eval_missing_checkpoint identity_net never_exhausted (λ _, false)
           stored_as_is ["a"; "b"] ["oa"; "ob"] "cubist" "/gpu:0" 2%Z 0%Z
           0%Q disk "a").
  - reflexivity.
  - eexists. vm_compute. reflexivity.
  - lia.
  - reflexivity.
Defined.



